(** * Off-policy evaluation: the estimators of [ml/rl/training/evaluator.py]

    A shallow embedding of the [Evaluator] class: the accumulator
    ([report], [evaluate_batch]), the one-step and sequential doubly-robust
    estimators, the weighted doubly-robust (MAGIC) estimator and its helpers
    ([normalize_importance_weights], [calculate_step_return],
    [transform_to_equal_length_trajectories]), the rolling averages and
    [huberLoss]; and [default_normalizer] of [ml/rl/test/utils.py].

    Numbers.  A NumPy float is modelled by [num]: an exact rational, or one
    of the three special values that a division by zero creates (+inf, -inf,
    NaN), with the IEEE rules for them.  Rounding, overflow and the sign of
    zero are not modelled: a finite result is the exact rational one.

    Arrays.  An array is a list along its first axis: an N x A array is a
    list of N rows, an N x 1 array a list of N one-element rows, a vector a
    list of numbers.  Element-wise operations pair the entries of their
    operands; NumPy's broadcasting is written out where the code relies on
    it (a vector against the rows of a matrix), and a shape mismatch, which
    raises in NumPy, is outside the model.

    Exceptions.  Code that can raise returns a [result]. *)

From Stdlib Require Import String.
From Stdlib Require Import List ZArith QArith Qcanon Bool Lia Lqa.
Import ListNotations.

Open Scope Z_scope.

(* ================================================================= *)
(** ** Exceptions *)

Inductive exn : Set :=
| AssertionError   (* a failed [assert] *)
| IndexError       (* an index out of bounds, or too many indices *)
| AxisError        (* [swapaxes] on an array that lacks the axis *)
| AttributeError   (* an attribute of [None] *)
| TypeError        (* arithmetic on [None] *)
| ValueError.      (* unpacking a list of the wrong length *)

Inductive result (A : Type) : Type :=
| Ok (a : A)
| Raise (e : exn).

Arguments Ok {A} a.
Arguments Raise {A} e.

Definition bind {A B} (r : result A) (k : A -> result B) : result B :=
  match r with
  | Ok a => k a
  | Raise e => Raise e
  end.

Notation "x <- c ;; k" := (bind c (fun x => k))
  (at level 61, c at next level, right associativity).

Fixpoint mapM {A B} (f : A -> result B) (l : list A) : result (list B) :=
  match l with
  | [] => Ok []
  | a :: l' => b <- f a ;; bs <- mapM f l' ;; Ok (b :: bs)
  end.

(* ================================================================= *)
(** ** Numbers *)

Inductive num : Set :=
| Fin (q : Qc)
| PInf
| NInf
| NaN.

Definition of_Z (z : Z) : Qc := Q2Qc (inject_Z z).
Definition of_nat (n : nat) : Qc := of_Z (Z.of_nat n).

Definition zero : num := Fin 0%Qc.
Definition one : num := Fin 1%Qc.

Definition nopp (x : num) : num :=
  match x with
  | Fin q => Fin (- q)%Qc
  | PInf => NInf
  | NInf => PInf
  | NaN => NaN
  end.

Definition nadd (x y : num) : num :=
  match x, y with
  | NaN, _ | _, NaN => NaN
  | Fin a, Fin b => Fin (a + b)%Qc
  | PInf, NInf | NInf, PInf => NaN
  | PInf, _ | _, PInf => PInf
  | NInf, _ | _, NInf => NInf
  end.

Definition nsub (x y : num) : num := nadd x (nopp y).

(** The infinity with the sign of [q]; NaN when [q] is zero. *)
Definition signed_inf (q : Qc) : num :=
  match (q ?= 0)%Qc with
  | Gt => PInf
  | Lt => NInf
  | Eq => NaN
  end.

Definition nmul (x y : num) : num :=
  match x, y with
  | NaN, _ | _, NaN => NaN
  | Fin a, Fin b => Fin (a * b)%Qc
  | PInf, Fin b | Fin b, PInf => signed_inf b
  | NInf, Fin b | Fin b, NInf => signed_inf (- b)%Qc
  | PInf, PInf | NInf, NInf => PInf
  | PInf, NInf | NInf, PInf => NInf
  end.

(** NumPy's true division: a division by zero raises nothing, it gives an
    infinity or NaN (and a warning). *)
Definition ndiv (x y : num) : num :=
  match x, y with
  | NaN, _ | _, NaN => NaN
  | Fin a, Fin b =>
      if Qc_eq_bool b 0%Qc then signed_inf a else Fin (a / b)%Qc
  | Fin _, PInf | Fin _, NInf => zero
  | PInf, Fin b => match (b ?= 0)%Qc with Lt => NInf | _ => PInf end
  | NInf, Fin b => match (b ?= 0)%Qc with Lt => PInf | _ => NInf end
  | _, _ => NaN
  end.

Definition nabs (x : num) : num :=
  match x with
  | Fin q => match (q ?= 0)%Qc with Lt => Fin (- q)%Qc | _ => Fin q end
  | PInf | NInf => PInf
  | NaN => NaN
  end.

(** [x == y] on floats: false as soon as one side is NaN. *)
Definition neqb (x y : num) : bool :=
  match x, y with
  | Fin a, Fin b => Qc_eq_bool a b
  | PInf, PInf | NInf, NInf => true
  | _, _ => false
  end.

(** [x < y] on floats. *)
Definition nltb (x y : num) : bool :=
  match x, y with
  | Fin a, Fin b => match (a ?= b)%Qc with Lt => true | _ => false end
  | NInf, Fin _ | NInf, PInf | Fin _, PInf => true
  | _, _ => false
  end.

(** [base ** t] for a natural exponent. *)
Fixpoint npow (x : num) (n : nat) : num :=
  match n with
  | O => one
  | S n' => nmul x (npow x n')
  end.

Definition is_fin (x : num) : bool :=
  match x with Fin _ => true | _ => false end.

(* ================================================================= *)
(** ** Arrays *)

Definition vec := list num.
Definition mat := list vec.
Definition tensor3 := list mat.

Fixpoint zip_with {A B C} (f : A -> B -> C) (l1 : list A) (l2 : list B)
  : list C :=
  match l1, l2 with
  | a :: l1', b :: l2' => f a b :: zip_with f l1' l2'
  | _, _ => []
  end.

(** [np.sum] of a vector.  Without rounding the order of the additions is
    immaterial. *)
Definition np_sum (v : vec) : num := fold_right nadd zero v.

(** [np.sum] of a whole 2-D array. *)
Definition np_sum2 (m : mat) : num := np_sum (map np_sum m).

(** [np.sum(m, axis=1)]. *)
Definition sum_axis1 (m : mat) : vec := map np_sum m.

(** [np.sum(m, axis=1, keepdims=True)]: an N x 1 array. *)
Definition sum_axis1_keepdims (m : mat) : mat := map (fun r => [np_sum r]) m.

(** [np.sum(t, axis=2)] of a 3-D array. *)
Definition sum_axis2 (t : tensor3) : mat := map sum_axis1 t.

(** [np.sum(m, axis=0)]: the column sums. *)
Definition sum_axis0 (m : mat) : vec :=
  match m with
  | [] => []
  | r :: m' => fold_left (zip_with nadd) m' r
  end.

(** [np.mean] of a vector; the mean of no value is 0/0. *)
Definition np_mean (v : vec) : num :=
  ndiv (np_sum v) (Fin (of_nat (length v))).

Definition np_mean2 (m : mat) : num :=
  ndiv (np_sum2 m) (Fin (of_nat (length (concat m)))).

Definition vec_op (f : num -> num -> num) (a b : vec) : vec := zip_with f a b.
Definition mat_op (f : num -> num -> num) (a b : mat) : mat :=
  zip_with (vec_op f) a b.
Definition tensor_op (f : num -> num -> num) (a b : tensor3) : tensor3 :=
  zip_with (mat_op f) a b.

(** A vector against every row of a matrix (broadcasting). *)
Definition row_broadcast (f : num -> num -> num) (v : vec) (m : mat) : mat :=
  map (fun r => vec_op f v r) m.

Definition np_zeros (n : nat) : vec := repeat zero n.
Definition np_ones (n : nat) : vec := repeat one n.

(** [np.zeros(m.shape)] and [np.ones(m.shape)]. *)
Definition zeros_like (m : mat) : mat := map (map (fun _ => zero)) m.
Definition ones_like (m : mat) : mat := map (map (fun _ => one)) m.

(** Python indexing [l[i]]: a negative index counts from the end. *)
Definition py_index {A} (l : list A) (i : Z) : result A :=
  let n := Z.of_nat (length l) in
  let k := if i <? 0 then i + n else i in
  if (k <? 0) || (n <=? k) then Raise IndexError
  else match nth_error l (Z.to_nat k) with
       | Some a => Ok a
       | None => Raise IndexError
       end.

(** Python slicing [l[:k]]: a negative bound counts from the end. *)
Definition py_slice_to {A} (l : list A) (k : Z) : list A :=
  if k <? 0 then firstn (Z.to_nat (Z.of_nat (length l) + k)) l
  else firstn (Z.to_nat k) l.

(** [m[:, :k]] and [m[:, k]]. *)
Definition cols_to (m : mat) (k : Z) : mat := map (fun r => py_slice_to r k) m.
Definition column (m : mat) (k : Z) : result vec :=
  mapM (fun r => py_index r k) m.

(** Fancy indexing [x[idx]] with an array of indices. *)
Definition np_take {A} (x : list A) (idx : list nat) : result (list A) :=
  mapM (fun i => py_index x (Z.of_nat i)) idx.

(* ================================================================= *)
(** ** normalize_importance_weights *)

(** The array is updated in place and returned; every caller passes a
    freshly computed quotient, so the update is modelled by the returned
    value. *)
Definition normalize_importance_weights (importance_weights : mat) : mat :=
  let sum_importance_weights := sum_axis0 importance_weights in
  let where_zeros := map (fun s => neqb s zero) sum_importance_weights in
  let sum_importance_weights' :=
    zip_with (fun (z : bool) s =>
                if z then Fin (of_nat (length importance_weights)) else s)
             where_zeros sum_importance_weights in
  let importance_weights' :=
    map (fun r => zip_with (fun (z : bool) x => if z then one else x)
                           where_zeros r)
        importance_weights in
  row_broadcast (fun s x => ndiv x s) sum_importance_weights'
                importance_weights'.

(* ================================================================= *)
(** ** calculate_step_return *)

(** A truncation horizon: an integer or [float("inf")]. *)
Inductive jstep : Set :=
| JInf
| JInt (z : Z).

(** [int(min(j_step, bound))]. *)
Definition clamp_j_step (j_step : jstep) (bound : Z) : Z :=
  match j_step with
  | JInf => bound
  | JInt z => Z.min z bound
  end.

Definition calculate_step_return
    (weighted_discounts weighted_discounts_one_earlier rewards
     estimated_state_values estimated_Q_values : mat) (j_step : jstep)
  : result vec :=
  match rewards with
  | [] => Raise IndexError
  | rewards_0 :: _ =>
      let trajectory_length := Z.of_nat (length rewards_0) in
      let num_trajectories := length rewards in
      let j_step := clamp_j_step j_step (trajectory_length - 1) in
      let importance_sampled_cumulative_reward :=
        sum_axis1 (mat_op nmul (cols_to weighted_discounts (j_step + 1))
                               (cols_to rewards (j_step + 1))) in
      direct_method_value <-
        (if j_step <? trajectory_length - 1 then
           w <- column weighted_discounts_one_earlier (j_step + 1) ;;
           v <- column estimated_state_values (j_step + 1) ;;
           Ok (vec_op nmul w v)
         else Ok (np_zeros num_trajectories)) ;;
      let control_variate :=
        sum_axis1
          (mat_op nsub
             (mat_op nmul (cols_to weighted_discounts (j_step + 1))
                          (cols_to estimated_Q_values (j_step + 1)))
             (mat_op nmul (cols_to weighted_discounts_one_earlier (j_step + 1))
                          (cols_to estimated_state_values (j_step + 1)))) in
      Ok (vec_op nsub
            (vec_op nadd importance_sampled_cumulative_reward
                         direct_method_value)
            control_variate)
  end.

(* ================================================================= *)
(** ** transform_to_equal_length_trajectories *)

(** [np.nonzero(flags)[0]]: the positions of the true flags. *)
Fixpoint nonzero_from (i : nat) (flags : list bool) : list nat :=
  match flags with
  | [] => []
  | b :: flags' =>
      if b then i :: nonzero_from (S i) flags' else nonzero_from (S i) flags'
  end.

Definition np_nonzero (flags : list bool) : list nat := nonzero_from 0 flags.

(** The first loop: one [np.arange(episode_start, episode_end + 1)] per
    terminal flag. *)
Fixpoint episode_ranges (episode_start : nat) (episode_ends : list nat)
  : list (list nat) :=
  match episode_ends with
  | [] => []
  | episode_end :: rest =>
      seq episode_start (episode_end + 1 - episode_start)
      :: episode_ranges (episode_end + 1) rest
  end.

(** [itertools.zip_longest] over the episodes of [x]: one tuple per time
    step, as long as the longest episode; no tuple at all for no episode. *)
Definition zip_longest {A} (x : list (list A)) (fill_value : A)
  : list (list A) :=
  let longest := fold_right Nat.max 0%nat (map (@length A) x) in
  map (fun t => map (fun episode => nth t episode fill_value) x)
      (seq 0 longest).

Fixpoint transpose {A} (width : nat) (a : list (list A)) : list (list A) :=
  match a with
  | [] => repeat [] width
  | r :: a' => zip_with cons r (transpose width a')
  end.

(** [np.array(tuples).swapaxes(0, 1)].  The array of an empty list has one
    axis only, so exchanging axes 0 and 1 raises. *)
Definition swapaxes01 {A} (tuples : list (list A)) : result (list (list A)) :=
  match tuples with
  | [] => Raise AxisError
  | t0 :: _ => Ok (transpose (length t0) tuples)
  end.

Definition to_equal_length {A} (x : list (list A)) (fill_value : A)
  : result (list (list A)) :=
  swapaxes01 (zip_longest x fill_value).

(** The second loop appends the five slices of each episode in turn; every
    failure in it is an [IndexError], so the five fields are gathered one
    after the other here. *)
Definition transform_to_equal_length_trajectories
    (is_terminals : list bool) (actions : mat) (rewards : vec)
    (logged_propensities : vec) (target_propensities estimated_Q_values : mat)
  : result (tensor3 * mat * mat * tensor3 * tensor3) :=
  target_propensities_0 <- py_index target_propensities 0 ;;
  let num_actions := length target_propensities_0 in
  let episode_ends := np_nonzero is_terminals in
  let trajectories := episode_ranges 0 episode_ends in
  action_trajectories <- mapM (np_take actions) trajectories ;;
  reward_trajectories <- mapM (np_take rewards) trajectories ;;
  logged_propensity_trajectories <-
    mapM (np_take logged_propensities) trajectories ;;
  target_propensity_trajectories <-
    mapM (np_take target_propensities) trajectories ;;
  Q_value_trajectories <- mapM (np_take estimated_Q_values) trajectories ;;
  action_trajectories <-
    to_equal_length action_trajectories (np_zeros num_actions) ;;
  reward_trajectories <- to_equal_length reward_trajectories zero ;;
  logged_propensity_trajectories <-
    to_equal_length logged_propensity_trajectories one ;;
  target_propensity_trajectories <-
    to_equal_length target_propensity_trajectories (np_zeros num_actions) ;;
  Q_value_trajectories <-
    to_equal_length Q_value_trajectories (np_zeros num_actions) ;;
  Ok (action_trajectories, reward_trajectories,
      logged_propensity_trajectories, target_propensity_trajectories,
      Q_value_trajectories).

(* ================================================================= *)
(** ** doubly_robust_one_step_policy_estimation *)

(** [np.sum(target_propensities * logged_actions, axis=1, keepdims=True)
     / logged_propensities]. *)
Definition one_step_importance_weight
    (logged_actions logged_propensities target_propensities : mat) : mat :=
  let target_propensity_for_action :=
    sum_axis1_keepdims (mat_op nmul target_propensities logged_actions) in
  mat_op ndiv target_propensity_for_action logged_propensities.

Definition doubly_robust_one_step_policy_estimation
    (logged_actions logged_rewards logged_propensities
     target_propensities : mat) (estimated_values : option mat)
  : num * num * num :=
  let num_examples := length logged_actions in
  let '(estimated_values, direct_method_values) :=
    match estimated_values with
    | None => (zeros_like target_propensities, repeat [zero] num_examples)
    | Some estimated_values =>
        (estimated_values,
         sum_axis1_keepdims (mat_op nmul target_propensities estimated_values))
    end in
  let total_reward := np_sum2 logged_rewards in
  let importance_weight :=
    one_step_importance_weight logged_actions logged_propensities
                               target_propensities in
  let ips := mat_op nmul importance_weight logged_rewards in
  let estimated_values_for_action :=
    sum_axis1_keepdims (mat_op nmul estimated_values logged_actions) in
  let doubly_robust :=
    mat_op nadd
      (mat_op nmul importance_weight
              (mat_op nsub logged_rewards estimated_values_for_action))
      direct_method_values in
  (ndiv (np_sum2 ips) total_reward,
   ndiv (np_sum2 direct_method_values) total_reward,
   ndiv (np_sum2 doubly_robust) total_reward).

(* ================================================================= *)
(** ** doubly_robust_sequential_policy_estimation *)

(** [a[j][0]]. *)
Definition at_row {A} (a : list (list A)) (j : Z) : result A :=
  r <- py_index a j ;; py_index r 0.

(** [range(start, stop, -1)]. *)
Definition py_range_down (start stop : Z) : list Z :=
  map (fun k => start - Z.of_nat k) (seq 0 (Z.to_nat (start - stop))).

Section SequentialDR.

Variable gamma : num.
Variables direct_method_Q_values importance_weight logged_rewards
          estimated_values_for_action : mat.
Variable logged_is_terminals : list (list bool).

(** The inner [for j in range(...)] loop over one episode. *)
Fixpoint episode_loop (js : list Z) (doubly_robust episode_value : num)
  : result (num * num) :=
  match js with
  | [] => Ok (doubly_robust, episode_value)
  | j :: js' =>
      q <- at_row direct_method_Q_values j ;;
      w <- at_row importance_weight j ;;
      r <- at_row logged_rewards j ;;
      e <- at_row estimated_values_for_action j ;;
      let doubly_robust :=
        nadd q (nmul w (nsub (nadd r (nmul gamma doubly_robust)) e)) in
      let episode_value := nadd (nmul episode_value gamma) r in
      episode_loop js' doubly_robust episode_value
  end.

(** The outer [while i < num_examples] loop; [todo] holds the values of
    [i] still to come. *)
Fixpoint examples_loop (todo : list nat) (last_episode_end : Z)
         (doubly_robusts : list num) : result (list num) :=
  match todo with
  | [] => Ok doubly_robusts
  | i :: todo' =>
      terminal <- at_row logged_is_terminals (Z.of_nat i) ;;
      if (terminal : bool) then
        let episode_end := Z.of_nat i in
        p <- episode_loop (py_range_down episode_end (last_episode_end - 1))
                          zero zero ;;
        examples_loop todo' episode_end
                      (doubly_robusts ++ [ndiv (fst p) (snd p)])
      else examples_loop todo' last_episode_end doubly_robusts
  end.

End SequentialDR.

Definition doubly_robust_sequential_policy_estimation
    (gamma : num) (logged_actions logged_rewards : mat)
    (logged_is_terminals : list (list bool))
    (logged_propensities target_propensities estimated_Q_values : mat)
  : result num :=
  let num_examples := length logged_actions in
  let direct_method_Q_values :=
    sum_axis1_keepdims (mat_op nmul target_propensities estimated_Q_values) in
  let target_propensity_for_action :=
    sum_axis1_keepdims (mat_op nmul target_propensities logged_actions) in
  let importance_weight :=
    mat_op ndiv target_propensity_for_action logged_propensities in
  let estimated_values_for_action :=
    sum_axis1_keepdims (mat_op nmul estimated_Q_values logged_actions) in
  doubly_robusts <-
    examples_loop gamma direct_method_Q_values importance_weight
                  logged_rewards estimated_values_for_action
                  logged_is_terminals (seq 0 num_examples) (-1) [] ;;
  Ok (np_mean doubly_robusts).

(* ================================================================= *)
(** ** weighted_doubly_robust_sequential_policy_estimation *)

(** [x.squeeze()] of an N x 1 array.  A 1 x 1 array squeezes to an array
    without axes, which the reshaper cannot index with an episode's index
    array; the failure is recorded here (its class depends on the NumPy
    version).  An array with wider rows is not squeezed by NumPy; such
    inputs are outside the model. *)
Definition np_squeeze {A} (x : list (list A)) : result (list A) :=
  match x with
  | [_] => Raise IndexError
  | _ => mapM (fun r => match r with [a] => Ok a | _ => Raise IndexError end) x
  end.

(** Lines 304-317: the call of the reshaper on the squeezed columns. *)
Definition reshape_logged_data
    (logged_actions logged_rewards : mat)
    (logged_is_terminals : list (list bool))
    (logged_propensities target_propensities estimated_Q_values : mat)
  : result (tensor3 * mat * mat * tensor3 * tensor3) :=
  is_terminals <- np_squeeze logged_is_terminals ;;
  rewards <- np_squeeze logged_rewards ;;
  logged_propensities <- np_squeeze logged_propensities ;;
  transform_to_equal_length_trajectories
    is_terminals logged_actions rewards logged_propensities
    target_propensities estimated_Q_values.

(** [np.hstack([a, b])] of two 2-D arrays. *)
Definition np_hstack {A} (a b : list (list A)) : list (list A) :=
  zip_with (@app A) a b.

(** [range(lo, hi)]. *)
Definition py_range (lo hi : Z) : list Z :=
  map (fun k => lo + Z.of_nat k) (seq 0 (Z.to_nat (hi - lo))).

(** Lines 322-328: the horizons. *)
Definition j_step_list (num_j_steps trajectory_length : Z) : list jstep :=
  [JInf]
  ++ (if 1 <? num_j_steps then [JInt (-1)] else [])
  ++ (if 2 <? num_j_steps then
        let interval := trajectory_length / (num_j_steps - 1) in
        map (fun i => JInt (i * interval)) (py_range 1 (num_j_steps - 1))
      else []).

(** Lines 343-348: [np.ones([n, 1]) * 1.0 / n] stacked before
    [importance_weights[:, 1:]]. *)
Definition one_earlier (n : nat) (importance_weights : mat) : mat :=
  np_hstack (repeat [ndiv (nmul one one) (Fin (of_nat n))] n)
            (map (skipn 1) importance_weights).

(** [np.logspace(start=0, stop=L-1, num=L, base=gamma)]. *)
Definition np_logspace (trajectory_length : nat) (gamma : num) : vec :=
  map (npow gamma) (seq 0 trajectory_length).

(** [np.cov(m)]: each row a variable, each column an observation. *)
Definition np_cov (m : mat) : mat :=
  let observations := Z.of_nat (length (hd [] m)) in
  let fact := Fin (of_Z (Z.max 0 (observations - 1))) in
  let centered := map (fun r => map (fun x => nsub x (np_mean r)) r) m in
  map (fun ri => map (fun rj => ndiv (np_sum (vec_op nmul ri rj)) fact)
                     centered)
      centered.

(** Lines 415-420: how far each j-step return lies outside the interval. *)
Definition j_step_bias_of (num_j_steps : Z) (j_step_returns : vec)
           (low_bound high_bound : num) : vec :=
  let j_step_bias := np_zeros (Z.to_nat num_j_steps) in
  let j_step_bias :=
    zip_with (fun b r => if nltb r low_bound then nsub low_bound r else b)
             j_step_bias j_step_returns in
  zip_with (fun b r => if nltb high_bound r then nsub r high_bound else b)
           j_step_bias j_step_returns.

(** Line 424: [covariance + j_step_bias.T * j_step_bias].  The bias is a
    1-D array: its transpose is itself, the product is element-wise, and
    the sum adds the squared biases to every row of the covariance. *)
Definition error_matrix (covariance : mat) (j_step_bias : vec) : mat :=
  let squares := vec_op nmul j_step_bias j_step_bias in
  map (fun r => vec_op nadd r squares) covariance.

(** [np.dot] of two vectors, and of a vector with a matrix. *)
Definition np_dot (x y : vec) : num := np_sum (vec_op nmul x y).
Definition np_dot_vm (x : vec) (m : mat) : vec :=
  match m with
  | [] => []
  | r :: _ =>
      fold_right (vec_op nadd) (np_zeros (length r))
                 (zip_with (fun xi ri => map (nmul xi) ri) x m)
  end.

Definition mse_loss (x : vec) (error : mat) : num :=
  np_dot (np_dot_vm x error) x.

Definition num_subsets_for_cb_estimate : Z := 25.

Section WeightedDR.

(** The SciPy routines: [sp.stats.sem], [sp.stats.t._ppf] and the
    minimizer behind [sp.optimize.minimize(...).x] (objective, initial
    point, objective argument; the constraint and the bounds are fixed by
    the length of the initial point). *)
Variable sp_stats_sem : vec -> num.
Variable sp_stats_t_ppf : num -> Z -> num.
Variable sp_optimize_minimize : (vec -> mat -> num) -> vec -> mat -> vec.

Definition confidence_interval (x : vec) (confidence : num) : num * num :=
  let n := Z.of_nat (length x) in
  let m := np_mean x in
  let se := sp_stats_sem x in
  let h :=
    nmul se (sp_stats_t_ppf (ndiv (nadd one confidence) (Fin (of_Z 2)))
                            (n - 1)) in
  (nsub m h, nadd m h).

Variable gamma : num.

(** Lines 379-409: the step return of one subset of the trajectories. *)
Definition subset_infinite_step_return
    (discounts : vec)
    (target_propensity_for_logged_action logged_propensities rewards
     estimated_state_values estimated_Q_values_for_logged_action : mat)
    (num_trajectories : nat) (i : Z) : result num :=
  (* interval = num_trajectories / 25 and int(i * interval), without
     rounding *)
  let lo := i * Z.of_nat num_trajectories / num_subsets_for_cb_estimate in
  let hi :=
    (i + 1) * Z.of_nat num_trajectories / num_subsets_for_cb_estimate in
  let trajectory_subset := map Z.to_nat (py_range lo hi) in
  tp <- np_take target_propensity_for_logged_action trajectory_subset ;;
  lp <- np_take logged_propensities trajectory_subset ;;
  let importance_weights :=
    normalize_importance_weights (mat_op ndiv tp lp) in
  let importance_weights_one_earlier :=
    one_earlier (length trajectory_subset) importance_weights in
  r <- np_take rewards trajectory_subset ;;
  v <- np_take estimated_state_values trajectory_subset ;;
  q <- np_take estimated_Q_values_for_logged_action trajectory_subset ;;
  ret <- calculate_step_return
           (row_broadcast nmul discounts importance_weights)
           (row_broadcast nmul discounts importance_weights_one_earlier)
           r v q JInf ;;
  Ok (np_sum ret).

Definition weighted_doubly_robust_sequential_policy_estimation
    (logged_actions logged_rewards : mat)
    (logged_is_terminals : list (list bool))
    (logged_propensities target_propensities estimated_Q_values : mat)
    (num_j_steps : Z) : result num :=
  reshaped <- reshape_logged_data logged_actions logged_rewards
                logged_is_terminals logged_propensities target_propensities
                estimated_Q_values ;;
  let '(actions, rewards, logged_propensities, target_propensities,
        estimated_Q_values) := reshaped in
  let num_trajectories := length actions in
  actions_0 <- py_index actions 0 ;;
  let trajectory_length := length actions_0 in
  let j_steps := j_step_list num_j_steps (Z.of_nat trajectory_length) in
  let target_propensity_for_logged_action :=
    sum_axis2 (tensor_op nmul target_propensities actions) in
  let estimated_Q_values_for_logged_action :=
    sum_axis2 (tensor_op nmul estimated_Q_values actions) in
  let estimated_state_values :=
    sum_axis2 (tensor_op nmul target_propensities estimated_Q_values) in
  let importance_weights :=
    normalize_importance_weights
      (mat_op ndiv target_propensity_for_logged_action
              logged_propensities) in
  let importance_weights_one_earlier :=
    one_earlier num_trajectories importance_weights in
  let discounts := np_logspace trajectory_length gamma in
  let weighted_discounts :=
    row_broadcast nmul discounts importance_weights in
  let weighted_discounts_one_earlier :=
    row_broadcast nmul discounts importance_weights_one_earlier in
  j_step_return_trajectories <-
    mapM (calculate_step_return weighted_discounts
            weighted_discounts_one_earlier rewards estimated_state_values
            estimated_Q_values_for_logged_action)
         j_steps ;;
  let j_step_returns := sum_axis1 j_step_return_trajectories in
  weighted_doubly_robust <-
    match j_step_returns with
    | [ret] => Ok ret
    | _ =>
        infinite_step_returns <-
          mapM (subset_infinite_step_return discounts
                  target_propensity_for_logged_action logged_propensities
                  rewards estimated_state_values
                  estimated_Q_values_for_logged_action num_trajectories)
               (py_range 0 num_subsets_for_cb_estimate) ;;
        let '(low_bound, high_bound) :=
          confidence_interval infinite_step_returns
                              (Fin (Q2Qc (9 # 10))) in
        let j_step_bias :=
          j_step_bias_of num_j_steps j_step_returns low_bound high_bound in
        let covariance := np_cov j_step_return_trajectories in
        let error := error_matrix covariance j_step_bias in
        let x := np_zeros (length j_steps) in
        let x := sp_optimize_minimize mse_loss x error in
        Ok (np_dot x j_step_returns)
    end ;;
  let episode_values :=
    sum_axis1 (row_broadcast (fun d r => nmul r d) discounts rewards) in
  Ok (ndiv weighted_doubly_robust (np_mean episode_values)).

End WeightedDR.

(* ================================================================= *)
(** ** The accumulator: report, evaluate_batch *)

(** The history lists that [evaluate_batch] extends, the batch size, and
    the nine buffers of [all_batches] in the order of the constructor:
    td_loss, logged_actions, logged_propensities, logged_rewards,
    logged_values, model_propensities, model_values,
    model_values_on_logged_actions, model_action_idxs.  The attributes
    [td_loss_batches] ... [model_action_idxs_batches] are the same list
    objects as the entries of [all_batches]; the remaining history lists
    and [action_names] are only read by the logging code. *)
Record Evaluator : Type := mkEvaluator {
  mc_loss : list num;
  td_loss : list num;
  value_inverse_propensity_score : list num;
  value_direct_method : list num;
  value_doubly_robust : list num;
  reward_inverse_propensity_score : list num;
  reward_direct_method : list num;
  reward_doubly_robust : list num;
  evaluator_batch_size : Z;
  all_batches : list (list mat);
  gamma : num
}.

Definition td_loss_batches (self : Evaluator) : list mat :=
  nth 0 (all_batches self) [].

Definition set_all_batches (self : Evaluator) (b : list (list mat))
  : Evaluator :=
  mkEvaluator (mc_loss self) (td_loss self)
    (value_inverse_propensity_score self) (value_direct_method self)
    (value_doubly_robust self) (reward_inverse_propensity_score self)
    (reward_direct_method self) (reward_doubly_robust self)
    (evaluator_batch_size self) b (gamma self).

Definition append_td_loss (self : Evaluator) (x : num) : Evaluator :=
  mkEvaluator (mc_loss self) (td_loss self ++ [x])
    (value_inverse_propensity_score self) (value_direct_method self)
    (value_doubly_robust self) (reward_inverse_propensity_score self)
    (reward_direct_method self) (reward_doubly_robust self)
    (evaluator_batch_size self) (all_batches self) (gamma self).

Definition append_mc_loss (self : Evaluator) (x : num) : Evaluator :=
  mkEvaluator (mc_loss self ++ [x]) (td_loss self)
    (value_inverse_propensity_score self) (value_direct_method self)
    (value_doubly_robust self) (reward_inverse_propensity_score self)
    (reward_direct_method self) (reward_doubly_robust self)
    (evaluator_batch_size self) (all_batches self) (gamma self).

Definition append_value_estimates (self : Evaluator) (v : num * num * num)
  : Evaluator :=
  let '(v_ips, v_dm, v_dr) := v in
  mkEvaluator (mc_loss self) (td_loss self)
    (value_inverse_propensity_score self ++ [v_ips])
    (value_direct_method self ++ [v_dm])
    (value_doubly_robust self ++ [v_dr])
    (reward_inverse_propensity_score self)
    (reward_direct_method self) (reward_doubly_robust self)
    (evaluator_batch_size self) (all_batches self) (gamma self).

Definition append_reward_estimates (self : Evaluator) (r : num * num * num)
  : Evaluator :=
  let '(r_ips, r_dm, r_dr) := r in
  mkEvaluator (mc_loss self) (td_loss self)
    (value_inverse_propensity_score self) (value_direct_method self)
    (value_doubly_robust self)
    (reward_inverse_propensity_score self ++ [r_ips])
    (reward_direct_method self ++ [r_dm])
    (reward_doubly_robust self ++ [r_dr])
    (evaluator_batch_size self) (all_batches self) (gamma self).

Fixpoint list_set {A} (i : nat) (a : A) (l : list A) : list A :=
  match l, i with
  | [], _ => []
  | _ :: l', O => a :: l'
  | b :: l', S i' => b :: list_set i' a l'
  end.

(** [np.vstack(batch)], and the merged input of one buffer. *)
Definition np_vstack (batch : list mat) : mat := concat batch.

Definition merge_batch (batch : list mat) : option mat :=
  match batch with
  | [] => None
  | _ => Some (np_vstack batch)
  end.

(** An operand that must not be [None]. *)
Definition required (x : option mat) (e : exn) : result mat :=
  match x with
  | Some a => Ok a
  | None => Raise e
  end.

(** Lines 129-131: without logged propensities the logging policy is taken
    to be deterministic. *)
Definition assumed_propensities (logged_propensities logged_values : option mat)
  : result mat :=
  match logged_propensities with
  | Some p => Ok p
  | None => lv <- required logged_values AttributeError ;; Ok (ones_like lv)
  end.

(** [evaluate_batch] without the summary it logs.  An exception leaves the
    method at once; the state it had reached is not returned. *)
Definition evaluate_batch (self : Evaluator) : result Evaluator :=
  match map merge_batch (all_batches self) with
  | [td_loss; logged_actions; logged_propensities; logged_rewards;
     logged_values; model_propensities; model_values;
     model_values_on_logged_actions; model_action_idxs] =>
      let self :=
        match td_loss with
        | Some td_loss => append_td_loss self (np_mean2 td_loss)
        | None => self
        end in
      self <-
        match logged_values with
        | Some logged_values =>
            m <- required model_values_on_logged_actions TypeError ;;
            Ok (append_mc_loss self
                  (np_mean2 (map (map nabs) (mat_op nsub logged_values m))))
        | None => Ok self
        end ;;
      match logged_actions, model_propensities, model_values with
      | Some logged_actions, Some model_propensities, Some model_values =>
          logged_propensities <-
            assumed_propensities logged_propensities logged_values ;;
          logged_values <- required logged_values TypeError ;;
          let self :=
            append_value_estimates self
              (doubly_robust_one_step_policy_estimation
                 logged_actions logged_values logged_propensities
                 model_propensities (Some model_values)) in
          logged_rewards <- required logged_rewards TypeError ;;
          Ok (append_reward_estimates self
                (doubly_robust_one_step_policy_estimation
                   logged_actions logged_rewards logged_propensities
                   model_propensities None))
      | _, _, _ => Ok self
      end
  | _ => Raise ValueError
  end.

Definition clear_evaluation_containers (self : Evaluator) : Evaluator :=
  set_all_batches self (map (fun _ => []) (all_batches self)).

(** The [for i, input in enumerate(input_list)] loop of [report]. *)
Fixpoint report_loop (i : nat) (input_list : list (option mat))
         (batches : list (list mat)) : result (list (list mat)) :=
  match input_list with
  | [] => Ok batches
  | input :: rest =>
      match nth_error batches i with
      | None => Raise IndexError
      | Some batch =>
          match input with
          | None =>
              if (length batch =? 0)%nat then report_loop (S i) rest batches
              else Raise AssertionError
          | Some x =>
              report_loop (S i) rest (list_set i (batch ++ [x]) batches)
          end
      end
  end.

(** [report]; [input_list] holds its nine arguments in order. *)
Definition report (self : Evaluator) (input_list : list (option mat))
  : result Evaluator :=
  batches <- report_loop 0 input_list (all_batches self) ;;
  let self := set_all_batches self batches in
  if evaluator_batch_size self <=? Z.of_nat (length (td_loss_batches self))
  then
    self <- evaluate_batch self ;;
    Ok (clear_evaluation_containers self)
  else Ok self.

(** A sequence of [report] calls, stopped by the first exception. *)
Fixpoint reports (self : Evaluator) (calls : list (list (option mat)))
  : result Evaluator :=
  match calls with
  | [] => Ok self
  | c :: calls' => self <- report self c ;; reports self calls'
  end.

(** [Evaluator(action_names, evaluator_batch_size, gamma)]. *)
Definition new_Evaluator (evaluator_batch_size : Z) (gamma : num) : Evaluator :=
  mkEvaluator [] [] [] [] [] [] [] [] evaluator_batch_size
              (repeat [] 9) gamma.

(* ================================================================= *)
(** ** The rolling averages: get_recent_td_loss and its siblings *)

(** Python slicing [l[k:]]: a negative bound counts from the end. *)
Definition py_slice_from {A} (l : list A) (k : Z) : list A :=
  if k <? 0 then skipn (Z.to_nat (Z.of_nat (length l) + k)) l
  else skipn (Z.to_nat k) l.

Definition get_recent_td_loss (self : Evaluator) : num :=
  let begin := Z.max 0 (Z.of_nat (length (td_loss self)) - 100) in
  np_mean (py_slice_from (td_loss self) begin).

Definition get_recent_mc_loss (self : Evaluator) : num :=
  let begin := Z.max 0 (Z.of_nat (length (mc_loss self)) - 100) in
  np_mean (py_slice_from (mc_loss self) begin).

Definition get_recent_inverse_propensity_score (self : Evaluator) : num :=
  let begin :=
    Z.max 0 (Z.of_nat (length (reward_inverse_propensity_score self)) - 100) in
  np_mean (py_slice_from (reward_inverse_propensity_score self) begin).

Definition get_recent_direct_method (self : Evaluator) : num :=
  let begin :=
    Z.max 0 (Z.of_nat (length (reward_direct_method self)) - 100) in
  np_mean (py_slice_from (reward_direct_method self) begin).

Definition get_recent_doubly_robust (self : Evaluator) : num :=
  let begin :=
    Z.max 0 (Z.of_nat (length (reward_doubly_robust self)) - 100) in
  np_mean (py_slice_from (reward_doubly_robust self) begin).

(* ================================================================= *)
(** ** huberLoss *)

Definition huberLoss (label output : num) : num :=
  if nltb one (nabs (nsub label output)) then
    nsub (nabs (nsub label output)) (Fin (Q2Qc (1 # 2)))
  else
    nmul (nmul (Fin (Q2Qc (1 # 2))) (nsub label output)) (nsub label output).

(* ================================================================= *)
(** ** default_normalizer ([ml/rl/test/utils.py]) *)

(** The declaration of [NormalizationParameters] is not among the sources;
    the record has the fields that the call in [default_normalizer] names,
    in the order of the call. *)
Record NormalizationParameters : Type := mkNormalizationParameters {
  feature_type : String.string;
  boxcox_lambda : option num;
  boxcox_shift : num;
  mean : num;
  stddev : num;
  possible_values : option (list num);
  quantiles : option (list num);
  min_value : option num;
  max_value : option num
}.

Section OrderedDict.

(** A [collections.OrderedDict]: the items in insertion order, no key
    twice.  Keys are compared with a decidable equality. *)
Variables K V : Type.
Variable K_eq_dec : forall x y : K, {x = y} + {x <> y}.

(** [d[k] = v]: a key already present keeps its place and takes the new
    value; a new key goes to the end. *)
Fixpoint od_set (d : list (K * V)) (k : K) (v : V) : list (K * V) :=
  match d with
  | [] => [(k, v)]
  | (k', v') :: d' =>
      if K_eq_dec k k' then (k', v) :: d' else (k', v') :: od_set d' k v
  end.

(** [OrderedDict(items)]. *)
Definition OrderedDict (items : list (K * V)) : list (K * V) :=
  fold_left (fun d item => od_set d (fst item) (snd item)) items [].

(** [d[k]]; [None] stands for the [KeyError]. *)
Fixpoint od_get (d : list (K * V)) (k : K) : option V :=
  match d with
  | [] => None
  | (k', v') :: d' => if K_eq_dec k k' then Some v' else od_get d' k
  end.

End OrderedDict.

Definition default_normalizer {K}
    (K_eq_dec : forall x y : K, {x = y} + {x <> y})
    (feats : list K) (min_value max_value : option num)
  : list (K * NormalizationParameters) :=
  OrderedDict K NormalizationParameters K_eq_dec
    (map (fun feat =>
            (feat,
             mkNormalizationParameters "CONTINUOUS"%string None zero zero one
               None None min_value max_value))
         feats).

(* ================================================================= *)
(** * Properties *)

(** ** Auxiliary definitions *)

(** The rational [n/d] as a float, and arrays of finite numbers. *)
Definition frac (n : Z) (d : positive) : num := Fin (Q2Qc (n # d)).

Definition fin_vec (v : list Qc) : vec := map Fin v.
Definition fin_mat (m : list (list Qc)) : mat := map fin_vec m.

Definition qsum (v : list Qc) : Qc := fold_right Qcplus 0%Qc v.
Definition qsum2 (m : list (list Qc)) : Qc := qsum (map qsum m).

(** Column [j] of a matrix of rationals, and its column sums computed the
    way [np.sum(m, axis=0)] computes them. *)
Definition qcolumn (j : nat) (m : list (list Qc)) : list Qc :=
  map (fun r => nth j r 0%Qc) m.

Definition qsum_axis0 (m : list (list Qc)) : list Qc :=
  match m with
  | [] => []
  | r :: m' => fold_left (zip_with Qcplus) m' r
  end.

(** One entry of the normalized weights, from the sum [s] of its column,
    the number [T] of trajectories and the entry [x] of the input. *)
Definition normalized_entry (T : nat) (s x : Qc) : num :=
  if Qc_eq_bool s 0%Qc then Fin (1 / of_nat T)%Qc else Fin (x / s)%Qc.

(** [shape m = (rows, cols)]. *)
Definition has_shape {A} (m : list (list A)) (rows cols : nat) : bool :=
  (length m =? rows)%nat && forallb (fun r => (length r =? cols)%nat) m.

(** Structural equality on numbers (NaN equals NaN), to decide equations
    between concrete arrays. *)
Definition num_eqb (x y : num) : bool :=
  match x, y with
  | Fin a, Fin b => Qc_eq_bool a b
  | PInf, PInf | NInf, NInf | NaN, NaN => true
  | _, _ => false
  end.

Fixpoint list_eqb {A} (same : A -> A -> bool) (xs ys : list A) : bool :=
  match xs with
  | [] => match ys with [] => true | _ :: _ => false end
  | x :: xs' =>
      match ys with
      | [] => false
      | y :: ys' => same x y && list_eqb same xs' ys'
      end
  end.

Definition vec_eqb : vec -> vec -> bool := list_eqb num_eqb.
Definition mat_eqb : mat -> mat -> bool := list_eqb vec_eqb.

Definition result_eqb {A} (eqb : A -> A -> bool) (r1 r2 : result A) : bool :=
  match r1, r2 with
  | Ok a, Ok b => eqb a b
  | Raise AssertionError, Raise AssertionError
  | Raise IndexError, Raise IndexError
  | Raise AxisError, Raise AxisError
  | Raise AttributeError, Raise AttributeError
  | Raise TypeError, Raise TypeError
  | Raise ValueError, Raise ValueError => true
  | _, _ => false
  end.

(** The error matrix in the words of the specification: the covariance
    plus the outer product of the bias vector with itself. *)
Definition outer_product (u v : vec) : mat :=
  map (fun ui => map (fun vj => nmul ui vj) v) u.

Definition specified_error_matrix (covariance : mat) (j_step_bias : vec)
  : mat :=
  mat_op nadd covariance (outer_product j_step_bias j_step_bias).

(** The one-step-earlier weights in the words of the specification: a
    uniform first column, then column [t - 1] of the normalized weights in
    column [t]. *)
Definition specified_one_earlier (n : nat) (importance_weights : mat) : mat :=
  np_hstack (repeat [ndiv one (Fin (of_nat n))] n)
            (map (@removelast num) importance_weights).

(** What the loop of [report] does, told from its inputs: some field is
    omitted although its buffer already holds a batch; and the buffers
    after every supplied field is appended. *)
Definition omitted_after_supplied (input_list : list (option mat))
           (batches : list (list mat)) : bool :=
  existsb (fun p : option mat * list mat =>
             match fst p with
             | None => negb (length (snd p) =? 0)%nat
             | Some _ => false
             end)
          (combine input_list batches).

Definition append_inputs (input_list : list (option mat))
           (batches : list (list mat)) : list (list mat) :=
  zip_with (fun (input : option mat) batch =>
              match input with
              | Some x => batch ++ [x]
              | None => batch
              end)
           input_list batches
  ++ skipn (length input_list) batches.

(** Whether an argument of [report] is supplied. *)
Definition supplied (input : option mat) : bool :=
  match input with Some _ => true | None => false end.

(** Every buffer of a field that is never supplied is empty. *)
Definition absent_empty (pattern : list bool) (batches : list (list mat))
  : Prop :=
  Forall2 (fun (present : bool) (batch : list mat) =>
             present = false -> batch = [])
          pattern batches.

(** A logged stream of two episodes of two decisions, one action; the
    target policy takes the first logged action with probability 1/2. *)
Definition two_episodes_actions : mat := [[one]; [one]; [one]; [one]].
Definition two_episodes_rewards : mat := [[one]; [one]; [one]; [one]].
Definition two_episodes_terminals : list (list bool) :=
  [[false]; [true]; [false]; [true]].
Definition two_episodes_logged : mat := [[one]; [one]; [one]; [one]].
Definition two_episodes_target : mat := [[frac 1 2]; [one]; [one]; [one]].
Definition two_episodes_Q : mat := [[zero]; [zero]; [zero]; [zero]].

(** A logged stream of 25 episodes of one decision each: reward 1, both
    propensities 1, estimated Q-value 3. *)
Definition one_step_episodes_actions : mat := repeat [one] 25.
Definition one_step_episodes_rewards : mat := repeat [one] 25.
Definition one_step_episodes_terminals : list (list bool) := repeat [true] 25.
Definition one_step_episodes_logged : mat := repeat [one] 25.
Definition one_step_episodes_target : mat := repeat [one] 25.
Definition one_step_episodes_Q : mat := repeat [frac 3 1] 25.

(** The absolute value of a rational, as [nabs] computes it, and the Huber
    loss of a finite difference [d = label - output]. *)
Definition half : Qc := Q2Qc (1 # 2).

Definition qabs (q : Qc) : Qc :=
  match (q ?= 0)%Qc with
  | Lt => (- q)%Qc
  | _ => q
  end.

Definition huber_of (d : Qc) : Qc :=
  match (1 ?= qabs d)%Qc with
  | Lt => (qabs d - half)%Qc
  | _ => (half * d * d)%Qc
  end.

(** The parameters that [default_normalizer] gives to every feature. *)
Definition default_parameters (min_value max_value : option num)
  : NormalizationParameters :=
  mkNormalizationParameters "CONTINUOUS"%string None zero zero one
    None None min_value max_value.

(** The episodes of a stream: it is cut after every terminal flag, and the
    decisions after the last flag belong to no episode.  [current] holds
    the decisions of the episode under way. *)
Fixpoint cut_episodes {A} (flags : list bool) (x current : list A)
  : list (list A) :=
  match flags, x with
  | b :: flags', a :: x' =>
      if b then (current ++ [a]) :: cut_episodes flags' x' []
      else cut_episodes flags' x' (current ++ [a])
  | _, _ => []
  end.

(** The length of the longest list, and every list filled up to it. *)
Definition longest {A} (x : list (list A)) : nat :=
  fold_right Nat.max 0%nat (map (@length A) x).

Definition pad_to_longest {A} (fill_value : A) (x : list (list A))
  : list (list A) :=
  map (fun episode =>
         episode ++ repeat fill_value (longest x - length episode))
      x.

(** Arrays of integers. *)
Definition int_vec (v : list Z) : vec := map (fun z => frac z 1) v.
Definition int_mat (m : list (list Z)) : mat := map int_vec m.

Definition count_true (flags : list bool) : nat :=
  length (filter (fun b : bool => b) flags).

(** The normalized weights of a matrix of rationals. *)
Definition qnormalized_entry (T : nat) (s x : Qc) : Qc :=
  if Qc_eq_bool s 0%Qc then (1 / of_nat T)%Qc else (x / s)%Qc.

Definition qnormalize (m : list (list Qc)) : list (list Qc) :=
  map (zip_with (qnormalized_entry (length m)) (qsum_axis0 m)) m.

(** The eight history lists of an evaluator. *)
Definition histories (self : Evaluator) : list (list num) :=
  [mc_loss self; td_loss self; value_inverse_propensity_score self;
   value_direct_method self; value_doubly_robust self;
   reward_inverse_propensity_score self; reward_direct_method self;
   reward_doubly_robust self].

(** A call of [report] that supplies the TD loss, and one that omits it. *)
Definition with_td_loss (input_list : list (option mat)) : Prop :=
  length input_list = 9%nat /\
  exists td_loss rest, input_list = Some td_loss :: rest.

Definition without_td_loss (input_list : list (option mat)) : Prop :=
  length input_list = 9%nat /\ exists rest, input_list = None :: rest.

(** A call of [report] with a TD loss and nothing else. *)
Definition td_loss_only (input_list : list (option mat)) : Prop :=
  exists td_loss, input_list = Some td_loss :: repeat None 8.

(** ** Deciding equations between concrete arrays *)

Lemma num_eqb_eq (x y : num) : num_eqb x y = true -> x = y.
Proof.
  destruct x, y; simpl; try discriminate; try reflexivity.
  intros H. f_equal. now apply Qc_eq_bool_correct.
Qed.

Lemma list_eqb_eq {A} (eqb : A -> A -> bool) :
  (forall a b, eqb a b = true -> a = b) ->
  forall l1 l2, list_eqb eqb l1 l2 = true -> l1 = l2.
Proof.
  intros Heq l1.
  induction l1 as [|a l1 IH]; intros [|b l2]; simpl; try discriminate.
  - reflexivity.
  - intros H. apply andb_true_iff in H as [Hab Hl].
    f_equal; [now apply Heq | now apply IH].
Qed.

Lemma vec_eqb_eq (v w : vec) : vec_eqb v w = true -> v = w.
Proof. apply list_eqb_eq, num_eqb_eq. Qed.

Lemma mat_eqb_eq (m n : mat) : mat_eqb m n = true -> m = n.
Proof. apply list_eqb_eq, vec_eqb_eq. Qed.

Lemma result_eqb_eq {A} (eqb : A -> A -> bool) :
  (forall a b, eqb a b = true -> a = b) ->
  forall r1 r2 : result A, result_eqb eqb r1 r2 = true -> r1 = r2.
Proof.
  intros Heq [a|[]] [b|[]]; simpl; try discriminate; try reflexivity.
  intros H. f_equal. now apply Heq.
Qed.

Lemma Qc_eq_bool_refl (q : Qc) : Qc_eq_bool q q = true.
Proof. unfold Qc_eq_bool. destruct (Qc_eq_dec q q); congruence. Qed.

Lemma Qc_eq_bool_false (p q : Qc) : p <> q -> Qc_eq_bool p q = false.
Proof. unfold Qc_eq_bool. destruct (Qc_eq_dec p q); congruence. Qed.

Lemma mat_neqb_neq (m n : mat) : mat_eqb m n = false -> m <> n.
Proof.
  intros H ->.
  assert (Hr : forall k : mat, mat_eqb k k = true).
  { assert (Hn : forall x, num_eqb x x = true)
      by (intros []; simpl; auto using Qc_eq_bool_refl).
    assert (Hv : forall v : vec, vec_eqb v v = true).
    { induction v; simpl; [reflexivity|]. unfold vec_eqb in *. simpl.
      now rewrite Hn, IHv. }
    induction k; simpl; [reflexivity|]. unfold mat_eqb in *. simpl.
    now rewrite Hv, IHk. }
  rewrite Hr in H. discriminate.
Qed.

(** ** Arithmetic of [num] *)

Lemma nadd_zero_r (x : num) : nadd x zero = x.
Proof.
  destruct x; simpl; try reflexivity.
  apply f_equal, Qcplus_0_r.
Qed.

Lemma nopp_zero : nopp zero = zero.
Proof. reflexivity. Qed.

Lemma nsub_zero_r (x : num) : nsub x zero = x.
Proof. unfold nsub. rewrite nopp_zero. apply nadd_zero_r. Qed.

Lemma ndiv_one_r (x : num) : ndiv x one = x.
Proof.
  destruct x; cbn [ndiv one]; try reflexivity.
  rewrite Qc_eq_bool_false by (intros H; discriminate H).
  apply f_equal. field. intros H; discriminate H.
Qed.

Lemma nmul_zero_fin (q : Qc) : nmul zero (Fin q) = zero.
Proof. unfold zero. simpl. apply f_equal. ring. Qed.

Lemma nadd_fin (a b : Qc) : nadd (Fin a) (Fin b) = Fin (a + b)%Qc.
Proof. reflexivity. Qed.

Lemma ndiv_fin (a b : Qc) :
  b <> 0%Qc -> ndiv (Fin a) (Fin b) = Fin (a / b)%Qc.
Proof. intros Hb. simpl. now rewrite Qc_eq_bool_false. Qed.

#[global] Arguments nadd : simpl never.
#[global] Arguments nsub : simpl never.
#[global] Arguments nmul : simpl never.
#[global] Arguments ndiv : simpl never.
#[global] Arguments nopp : simpl never.

Lemma np_sum_fin (v : list Qc) : np_sum (fin_vec v) = Fin (qsum v).
Proof.
  induction v as [|q v IH]; [reflexivity|].
  unfold np_sum in *. simpl. now rewrite IH.
Qed.

Lemma np_sum2_fin (m : list (list Qc)) : np_sum2 (fin_mat m) = Fin (qsum2 m).
Proof.
  unfold np_sum2, fin_mat, qsum2. rewrite map_map.
  rewrite (map_ext _ (fun r => Fin (qsum r))) by apply np_sum_fin.
  rewrite <- (map_map qsum Fin). apply np_sum_fin.
Qed.

(** ** Pairing of lists *)

Lemma zip_with_nil_r {A B C} (f : A -> B -> C) (l : list A) :
  zip_with f l [] = [].
Proof. now destruct l. Qed.

Lemma zip_with_length {A B C} (f : A -> B -> C) (l1 : list A) (l2 : list B) :
  length (zip_with f l1 l2) = Nat.min (length l1) (length l2).
Proof.
  revert l2. induction l1 as [|a l1 IH]; intros [|b l2]; simpl; auto.
Qed.

(** ** Shapes and indexing *)

Lemma has_shape_rows {A} (m : list (list A)) (T L : nat) :
  has_shape m T L = true ->
  length m = T /\ Forall (fun r => length r = L) m.
Proof.
  unfold has_shape. intros H. apply andb_true_iff in H as [HT HL].
  apply Nat.eqb_eq in HT. split; [exact HT|].
  apply Forall_forall. intros r Hr.
  rewrite forallb_forall in HL. apply Nat.eqb_eq. now apply HL.
Qed.

Lemma zip_with_nth {A B C} (f : A -> B -> C) (a : list A) (b : list B)
      (j : nat) (da : A) (db : B) (dc : C) :
  (j < length a)%nat -> (j < length b)%nat ->
  nth j (zip_with f a b) dc = f (nth j a da) (nth j b db).
Proof.
  revert b j. induction a as [|x a IH]; intros [|y b] [|j]; simpl;
    intros Ha Hb; try lia; try reflexivity.
  apply IH; lia.
Qed.

Lemma py_index_nth {A} (l : list A) (j : nat) (d : A) :
  (j < length l)%nat -> py_index l (Z.of_nat j) = Ok (nth j l d).
Proof.
  intros Hj. unfold py_index.
  replace (Z.of_nat j <? 0) with false by (symmetry; apply Z.ltb_ge; lia).
  replace (Z.of_nat j <? 0) with false by (symmetry; apply Z.ltb_ge; lia).
  replace (Z.of_nat (length l) <=? Z.of_nat j) with false
    by (symmetry; apply Z.leb_gt; lia).
  simpl. rewrite Nat2Z.id.
  rewrite (nth_error_nth' l d Hj). reflexivity.
Qed.

Lemma column_nth (m : mat) (j : nat) (d : num) :
  Forall (fun r => (j < length r)%nat) m ->
  column m (Z.of_nat j) = Ok (map (fun r => nth j r d) m).
Proof.
  unfold column. induction 1 as [|r m Hr Hm IH]; simpl; [reflexivity|].
  rewrite (py_index_nth r j d Hr). simpl. rewrite IH. reflexivity.
Qed.

(** ** Importance-weight normalization *)

Lemma zip_with_fin_add (a b : list Qc) :
  zip_with nadd (fin_vec a) (fin_vec b) = fin_vec (zip_with Qcplus a b).
Proof.
  revert b. induction a as [|x a IH]; intros [|y b]; simpl; try reflexivity.
  now rewrite IH.
Qed.

Lemma sum_axis0_fin (m : list (list Qc)) :
  sum_axis0 (fin_mat m) = fin_vec (qsum_axis0 m).
Proof.
  destruct m as [|r m]; [reflexivity|]. simpl.
  revert r. induction m as [|r' m IH]; intros r; simpl; [reflexivity|].
  rewrite zip_with_fin_add. apply IH.
Qed.

Lemma of_nat_nonzero (n : nat) : (0 < n)%nat -> of_nat n <> 0%Qc.
Proof.
  intros Hn H. unfold of_nat, of_Z in H.
  apply Q2Qc_eq_iff in H. unfold Qeq in H. simpl in H. lia.
Qed.

Lemma normalize_row (T : nat) (S r : list Qc) :
  (0 < T)%nat ->
  let sums := fin_vec S in
  let where_zeros := map (fun s => neqb s zero) sums in
  zip_with (fun s x => ndiv x s)
    (zip_with (fun (z : bool) s => if z then Fin (of_nat T) else s)
              where_zeros sums)
    (zip_with (fun (z : bool) x => if z then one else x)
              where_zeros (fin_vec r))
  = zip_with (normalized_entry T) S r.
Proof.
  intros HT. simpl. revert r.
  induction S as [|s S IH]; intros [|x r]; simpl; try reflexivity.
  rewrite IH. f_equal.
  unfold normalized_entry.
  change (Q2Qc 0) with 0%Qc.
  destruct (Qc_eq_bool s 0%Qc) eqn:Hs.
  - unfold one. rewrite ndiv_fin by now apply of_nat_nonzero. reflexivity.
  - rewrite ndiv_fin; [reflexivity|].
    intros ->. now rewrite Qc_eq_bool_refl in Hs.
Qed.

Lemma normalize_fin (m : list (list Qc)) :
  normalize_importance_weights (fin_mat m)
  = map (zip_with (normalized_entry (length m)) (qsum_axis0 m)) m.
Proof.
  unfold normalize_importance_weights, row_broadcast, vec_op.
  rewrite sum_axis0_fin.
  unfold fin_mat at 1 2. rewrite !map_map, length_map.
  apply map_ext_in. intros r Hr.
  apply normalize_row.
  destruct m; [contradiction | simpl; lia].
Qed.

Lemma qsum_axis0_fold (L j : nat) (m : list (list Qc)) :
  (j < L)%nat ->
  Forall (fun r => length r = L) m ->
  forall r, length r = L ->
    length (fold_left (zip_with Qcplus) m r) = L /\
    nth j (fold_left (zip_with Qcplus) m r) 0%Qc
    = (nth j r 0 + qsum (qcolumn j m))%Qc.
Proof.
  intros Hj. induction 1 as [|r' m Hr' Hm IH]; intros r Hr; simpl.
  - split; [exact Hr | ring].
  - destruct (IH (zip_with Qcplus r r')) as [Hlen Hnth].
    { rewrite zip_with_length. lia. }
    split; [exact Hlen|]. rewrite Hnth.
    rewrite (zip_with_nth _ _ _ _ 0%Qc 0%Qc) by lia. ring.
Qed.

Lemma qsum_axis0_nth (m : list (list Qc)) (T L j : nat) :
  has_shape m T L = true -> (j < L)%nat -> (0 < T)%nat ->
  length (qsum_axis0 m) = L /\
  nth j (qsum_axis0 m) 0%Qc = qsum (qcolumn j m).
Proof.
  intros Hs Hj HT. apply has_shape_rows in Hs as [Hlen Hrows].
  destruct m as [|r m]; [simpl in Hlen; lia|].
  inversion Hrows as [|? ? Hr Hm]; subst.
  simpl. now apply qsum_axis0_fold.
Qed.

Lemma qsum_scaled (c : list Qc) (s : Qc) :
  qsum (map (fun x => x / s)%Qc c) = (qsum c / s)%Qc.
Proof.
  induction c as [|x c IH]; simpl.
  - unfold Qcdiv. ring.
  - rewrite IH. unfold Qcdiv. ring.
Qed.

(** C4: on a T-by-L matrix of finite ratios, every column of the result
    whose input sum is nonzero is the input column divided by its sum and
    sums to 1, and every column whose input sum is zero is uniformly 1/T. *)
Theorem normalize_importance_weights_column_stochastic
    (m : list (list Qc)) (T L j : nat) :
  has_shape m T L = true -> (j < L)%nat ->
  let s := qsum (qcolumn j m) in
  exists c,
    column (normalize_importance_weights (fin_mat m)) (Z.of_nat j) = Ok c /\
    (s <> 0%Qc ->
     c = map (fun x => Fin (x / s)%Qc) (qcolumn j m) /\ np_sum c = one) /\
    (s = 0%Qc -> c = repeat (Fin (1 / of_nat T)%Qc) T).
Proof.
  intros Hs Hj s.
  destruct (Nat.eq_dec T 0) as [->|HT].
  - apply has_shape_rows in Hs as [Hlen _].
    destruct m; [|discriminate]. exists []. split; [reflexivity|].
    split; [intros Hne; now elim Hne | reflexivity].
  - destruct (qsum_axis0_nth m T L j Hs Hj ltac:(lia)) as [HlenS HnthS].
    pose proof (has_shape_rows _ _ _ Hs) as [Hlen Hrows].
    exists (map (normalized_entry T s) (qcolumn j m)).
    split; [|split].
    + rewrite normalize_fin, Hlen.
      rewrite (column_nth _ j NaN).
      * unfold qcolumn. rewrite !map_map. f_equal.
        apply map_ext_in. intros r Hr.
        rewrite Forall_forall in Hrows. specialize (Hrows r Hr).
        rewrite (zip_with_nth _ _ _ _ 0%Qc 0%Qc) by lia.
        now rewrite HnthS.
      * apply Forall_forall. intros r' Hr'.
        apply in_map_iff in Hr' as [r [<- Hr]].
        rewrite Forall_forall in Hrows. specialize (Hrows r Hr).
        rewrite zip_with_length. lia.
    + intros Hne. unfold normalized_entry.
      rewrite Qc_eq_bool_false by exact Hne. split; [reflexivity|].
      rewrite <- (map_map (fun x => (x / s)%Qc) Fin).
      change (map Fin) with fin_vec. rewrite np_sum_fin, qsum_scaled.
      unfold one. f_equal. fold s. now field.
    + intros Hz. unfold normalized_entry. rewrite Hz, Qc_eq_bool_refl.
      unfold qcolumn. rewrite map_map.
      generalize (Fin (1 / of_nat T)%Qc). intros v.
      rewrite <- Hlen. clear. induction m; simpl; [reflexivity|now f_equal].
Qed.

(** The theorem on a 2-by-2 matrix, for its first column. *)
Lemma normalize_importance_weights_column_stochastic_witness :
  let m := [[Q2Qc (1 # 2); 0%Qc]; [1%Qc; 0%Qc]] in
  has_shape m 2 2 = true /\ (0 < 2)%nat /\
  exists c,
    column (normalize_importance_weights (fin_mat m)) (Z.of_nat 0) = Ok c /\
    (qsum (qcolumn 0 m) <> 0%Qc ->
     c = map (fun x => Fin (x / qsum (qcolumn 0 m))%Qc) (qcolumn 0 m) /\
     np_sum c = one) /\
    (qsum (qcolumn 0 m) = 0%Qc -> c = repeat (Fin (1 / of_nat 2)%Qc) 2).
Proof.
  intros m. split; [reflexivity|]. split; [lia|].
  apply (normalize_importance_weights_column_stochastic m 2 2 0);
    [reflexivity | lia].
Defined.

(** ** One-step estimation without estimated values *)

Lemma np_sum_zero_products (z : list num) (a : list Qc) :
  Forall (fun x => x = zero) z ->
  np_sum (vec_op nmul z (fin_vec a)) = zero.
Proof.
  intros Hz. revert a.
  induction Hz as [|x z Hx Hz IH]; intros [|q a]; try reflexivity.
  subst x. unfold np_sum, vec_op in *. simpl.
  rewrite IH, nmul_zero_fin. reflexivity.
Qed.

Lemma zeros_row_all_zero (r : vec) :
  Forall (fun x => x = zero) (map (fun _ => zero) r).
Proof. induction r; simpl; constructor; auto. Qed.

(** The estimated values of the taken actions are all zero. *)
Lemma zero_values_for_action (target_propensities : mat)
      (logged_actions : list (list Qc)) :
  sum_axis1_keepdims
    (mat_op nmul (zeros_like target_propensities) (fin_mat logged_actions))
  = repeat [zero]
           (Nat.min (length target_propensities) (length logged_actions)).
Proof.
  revert logged_actions.
  induction target_propensities as [|r tp IH]; intros [|a la];
    try reflexivity.
  simpl. f_equal.
  - f_equal. apply np_sum_zero_products, zeros_row_all_zero.
  - apply IH.
Qed.

Lemma short_row_correction (wi ri : vec) :
  (length wi <= 1)%nat ->
  vec_op nadd (vec_op nmul wi (vec_op nsub ri [zero])) [zero]
  = vec_op nmul wi ri.
Proof.
  unfold vec_op.
  destruct wi as [|x [|x' wi]]; simpl; intros Hl; try lia.
  - reflexivity.
  - destruct ri as [|y ri]; simpl; [reflexivity|].
    now rewrite nsub_zero_r, nadd_zero_r.
Qed.

Lemma zero_correction (w : mat) :
  Forall (fun r => (length r <= 1)%nat) w ->
  forall (r : mat) (n N : nat),
    (length w <= n)%nat -> (length w <= N)%nat ->
    mat_op nadd (mat_op nmul w (mat_op nsub r (repeat [zero] n)))
           (repeat [zero] N)
    = mat_op nmul w r.
Proof.
  induction 1 as [|wi w Hwi Hw IH]; intros r n N Hn HN; [reflexivity|].
  destruct r as [|ri r]; [reflexivity|].
  destruct n as [|n]; [simpl in Hn; lia|].
  destruct N as [|N]; [simpl in HN; lia|].
  simpl in *. unfold mat_op in *. simpl. f_equal.
  - now apply short_row_correction.
  - apply IH; lia.
Qed.

Lemma importance_weight_rows (logged_actions logged_propensities
                              target_propensities : mat) :
  let w := one_step_importance_weight logged_actions logged_propensities
                                       target_propensities in
  Forall (fun r => (length r <= 1)%nat) w /\
  (length w
   <= Nat.min (length target_propensities) (length logged_actions))%nat.
Proof.
  unfold one_step_importance_weight, sum_axis1_keepdims, mat_op. simpl.
  split.
  - generalize (zip_with (vec_op nmul) target_propensities logged_actions).
    intros m. revert logged_propensities.
    induction m as [|r m IH]; intros [|p lp]; simpl; constructor.
    + destruct p; simpl; lia.
    + apply IH.
  - rewrite zip_with_length, length_map, zip_with_length. lia.
Qed.

(** C5 (amended): without estimated values the doubly-robust output equals
    the IPS output, and the direct-method output is exactly 0 whenever the
    logged rewards do not sum to zero; when they sum to zero it is 0/0,
    that is NaN. *)
Theorem one_step_without_estimated_values
    (logged_actions logged_rewards : list (list Qc))
    (logged_propensities target_propensities : mat) :
  let '(ips, dm, dr) :=
    doubly_robust_one_step_policy_estimation
      (fin_mat logged_actions) (fin_mat logged_rewards)
      logged_propensities target_propensities None in
  dr = ips /\
  dm = (if Qc_eq_bool (qsum2 logged_rewards) 0%Qc then NaN else zero).
Proof.
  unfold doubly_robust_one_step_policy_estimation.
  cbv zeta.
  rewrite zero_values_for_action.
  destruct (importance_weight_rows (fin_mat logged_actions)
              logged_propensities target_propensities) as [Hs Hl].
  unfold fin_mat in Hl at 2. rewrite length_map in Hl.
  rewrite zero_correction; auto.
  2:{ unfold fin_mat at 2. rewrite length_map. lia. }
  split; [reflexivity|].
  rewrite np_sum2_fin.
  assert (Hz : np_sum2 (repeat [zero] (length (fin_mat logged_actions)))
               = zero).
  { generalize (length (fin_mat logged_actions)). intros n.
    induction n as [|n IH]; [reflexivity|].
    unfold np_sum2, np_sum in *. simpl. rewrite IH. reflexivity. }
  rewrite Hz. unfold zero, ndiv.
  destruct (Qc_eq_bool (qsum2 logged_rewards) 0); [reflexivity|].
  apply f_equal. unfold Qcdiv. ring.
Qed.

(** C5, as stated, fails when the logged rewards sum to zero: one example
    with reward 0, propensities 1.  The direct-method output is NaN. *)
Lemma one_step_direct_method_not_zero :
  let '(_, dm, _) :=
    doubly_robust_one_step_policy_estimation
      [[one]] [[zero]] [[one]] [[one]] None in
  dm = NaN /\ dm <> zero.
Proof. vm_compute. split; [reflexivity | discriminate]. Qed.

(** ** The step return at the full horizon *)






(** ** The reshaped tensors hold at least one trajectory *)

Lemma transpose_length {A} (width : nat) (a : list (list A)) :
  Forall (fun r => length r = width) a ->
  length (transpose width a) = width.
Proof.
  induction 1 as [|r a Hr Ha IH]; simpl.
  - apply repeat_length.
  - rewrite zip_with_length, IH, Hr. apply Nat.min_id.
Qed.

Lemma to_equal_length_rows {A} (x : list (list A)) (fill_value : A)
      (y : list (list A)) :
  to_equal_length x fill_value = Ok y ->
  length y = length x /\ (0 < length x)%nat.
Proof.
  unfold to_equal_length, swapaxes01, zip_longest.
  set (longest := fold_right Nat.max 0%nat (map (@length A) x)).
  destruct x as [|e x].
  - simpl. discriminate.
  - destruct (map _ (seq 0 longest)) as [|t0 tuples] eqn:Ht; [discriminate|].
    intros H. injection H as <-.
    assert (Hall : Forall (fun r => length r = length (e :: x)) (t0 :: tuples)).
    { rewrite <- Ht. apply Forall_forall. intros r Hr.
      apply in_map_iff in Hr as [t [<- _]]. apply length_map. }
    assert (Ht0 : length t0 = length (e :: x)) by now inversion Hall.
    rewrite Ht0. split; [exact (transpose_length _ _ Hall) | simpl; lia].
Qed.

Lemma transform_rows
    (is_terminals : list bool) (actions : mat) (rewards : vec)
    (logged_propensities : vec) (target_propensities estimated_Q_values : mat)
    (a : tensor3) (r l : mat) (t q : tensor3) :
  transform_to_equal_length_trajectories is_terminals actions rewards
    logged_propensities target_propensities estimated_Q_values
  = Ok (a, r, l, t, q) ->
  (0 < length a)%nat /\ (0 < length r)%nat.
Proof.
  unfold transform_to_equal_length_trajectories.
  destruct (py_index target_propensities 0); [|discriminate]. simpl bind.
  destruct (mapM (np_take actions) _) as [xa|]; [|discriminate]. simpl bind.
  destruct (mapM (np_take rewards) _) as [xr|]; [|discriminate]. simpl bind.
  destruct (mapM (np_take logged_propensities) _) as [xl|]; [|discriminate].
  simpl bind.
  destruct (mapM (np_take target_propensities) _) as [xt|]; [|discriminate].
  simpl bind.
  destruct (mapM (np_take estimated_Q_values) _) as [xq|]; [|discriminate].
  simpl bind.
  destruct (to_equal_length xa _) as [ya|] eqn:Ha; [|discriminate].
  simpl bind.
  destruct (to_equal_length xr _) as [yr|] eqn:Hr; [|discriminate].
  simpl bind.
  destruct (to_equal_length xl _) as [yl|]; [|discriminate]. simpl bind.
  destruct (to_equal_length xt _) as [yt|]; [|discriminate]. simpl bind.
  destruct (to_equal_length xq _) as [yq|]; [|discriminate]. simpl bind.
  intros H. injection H as <- <- <- <- <-.
  apply to_equal_length_rows in Ha as [Ha1 Ha2].
  apply to_equal_length_rows in Hr as [Hr1 Hr2].
  split.
  - eapply Nat.lt_le_trans; [exact Ha2|]. apply Nat.eq_le_incl.
    symmetry. exact Ha1.
  - eapply Nat.lt_le_trans; [exact Hr2|]. apply Nat.eq_le_incl.
    symmetry. exact Hr1.
Qed.

Lemma reshape_rows
    (logged_actions logged_rewards : mat)
    (logged_is_terminals : list (list bool))
    (logged_propensities target_propensities estimated_Q_values : mat)
    (a : tensor3) (r l : mat) (t q : tensor3) :
  reshape_logged_data logged_actions logged_rewards logged_is_terminals
    logged_propensities target_propensities estimated_Q_values
  = Ok (a, r, l, t, q) ->
  (0 < length a)%nat /\ (0 < length r)%nat.
Proof.
  unfold reshape_logged_data.
  destruct (np_squeeze logged_is_terminals); [|discriminate]. simpl bind.
  destruct (np_squeeze logged_rewards); [|discriminate]. simpl bind.
  destruct (np_squeeze logged_propensities); [|discriminate]. simpl bind.
  apply transform_rows.
Qed.



(** ** evaluate_batch without logged propensities *)

Lemma divide_by_ones (t : mat) :
  Forall (fun r => (length r <= 1)%nat) t ->
  forall lv : mat,
    (length t <= length lv)%nat ->
    forallb (fun r => (length r =? 1)%nat) lv = true ->
    mat_op ndiv t (ones_like lv) = t.
Proof.
  induction 1 as [|r t Hr Ht IH]; intros [|v lv] Hl Hv; simpl in *;
    try reflexivity; try lia.
  apply andb_true_iff in Hv as [Hv1 Hv].
  unfold mat_op in *. simpl. f_equal.
  - destruct v as [|y [|y' v]]; simpl in Hv1; try discriminate.
    destruct r as [|x [|x' r]]; simpl in Hr; try lia; try reflexivity.
    unfold vec_op. simpl. now rewrite ndiv_one_r.
  - apply IH; [lia | exact Hv].
Qed.

Lemma keepdims_rows (m : mat) :
  Forall (fun r => (length r <= 1)%nat) (sum_axis1_keepdims m).
Proof. induction m; simpl; constructor; simpl; auto. Qed.

(** C10: when the logged actions, the model propensities and the model
    values are present and the logged propensities are absent,
    [evaluate_batch] calls the one-step estimator with an all-ones array of
    the shape of the logged values in place of the logged propensities, and
    the importance weight of each example is then the target propensity of
    the action taken. *)
Theorem evaluate_batch_deterministic_logging
    (self : Evaluator) (td mai : option mat)
    (la lr lv mp mv mvla : mat) :
  map merge_batch (all_batches self)
  = [td; Some la; None; Some lr; Some lv; Some mp; Some mv; Some mvla; mai] ->
  has_shape lv (length la) 1 = true ->
  let self1 :=
    match td with
    | Some td => append_td_loss self (np_mean2 td)
    | None => self
    end in
  let self2 :=
    append_mc_loss self1 (np_mean2 (map (map nabs) (mat_op nsub lv mvla))) in
  assumed_propensities None (Some lv) = Ok (ones_like lv) /\
  evaluate_batch self
  = Ok (append_reward_estimates
          (append_value_estimates self2
             (doubly_robust_one_step_policy_estimation
                la lv (ones_like lv) mp (Some mv)))
          (doubly_robust_one_step_policy_estimation
             la lr (ones_like lv) mp None)) /\
  one_step_importance_weight la (ones_like lv) mp
  = sum_axis1_keepdims (mat_op nmul mp la).
Proof.
  intros Hm Hs self1 self2. split; [reflexivity|]. split.
  - unfold evaluate_batch. rewrite Hm. reflexivity.
  - unfold one_step_importance_weight.
    unfold has_shape in Hs. apply andb_true_iff in Hs as [Hn Hr].
    apply Nat.eqb_eq in Hn.
    apply divide_by_ones; [apply keepdims_rows | | exact Hr].
    unfold sum_axis1_keepdims, mat_op.
    rewrite length_map, zip_with_length.
    etransitivity; [apply Nat.le_min_r|]. now apply Nat.eq_le_incl.
Qed.

(** The theorem on an evaluator holding one batch of one example. *)
Lemma evaluate_batch_deterministic_logging_witness :
  let self :=
    mkEvaluator [] [] [] [] [] [] [] [] 1
      [[[[one]]]; [[[one; zero]]]; []; [[[frac 2 1]]]; [[[frac 3 1]]];
       [[[frac 1 2; frac 1 2]]]; [[[frac 4 1; frac 5 1]]]; [[[frac 4 1]]]; []]
      one in
  map merge_batch (all_batches self)
  = [Some [[one]]; Some [[one; zero]]; None; Some [[frac 2 1]];
     Some [[frac 3 1]]; Some [[frac 1 2; frac 1 2]];
     Some [[frac 4 1; frac 5 1]]; Some [[frac 4 1]]; None] /\
  has_shape [[frac 3 1]] (length [[one; zero]]) 1 = true /\
  one_step_importance_weight [[one; zero]] (ones_like [[frac 3 1]])
                             [[frac 1 2; frac 1 2]]
  = sum_axis1_keepdims (mat_op nmul [[frac 1 2; frac 1 2]] [[one; zero]]).
Proof.
  intros self. split; [reflexivity|]. split; [reflexivity|].
  apply (evaluate_batch_deterministic_logging self (Some [[one]]) None
           [[one; zero]] [[frac 2 1]] [[frac 3 1]] [[frac 1 2; frac 1 2]]
           [[frac 4 1; frac 5 1]] [[frac 4 1]]);
    reflexivity.
Defined.

(** ** The reshaper and the terminal flags *)

Lemma nonzero_from_none (i : nat) (flags : list bool) :
  forallb negb flags = true -> nonzero_from i flags = [].
Proof.
  revert i. induction flags as [|b flags IH]; intros i H; [reflexivity|].
  simpl in H. apply andb_true_iff in H as [Hb H].
  destruct b; [discriminate|]. simpl. now apply IH.
Qed.



Lemma mapM_ext_in {A B} (f g : A -> result B) (l : list A) :
  (forall a, In a l -> f a = g a) -> mapM f l = mapM g l.
Proof.
  induction l as [|a l IH]; intros H; simpl; [reflexivity|].
  rewrite (H a) by now left.
  rewrite IH; [reflexivity|]. intros b Hb. apply H. now right.
Qed.

Lemma py_index_app {A} (pre trail : list A) (k : nat) :
  (k < length pre)%nat ->
  py_index (pre ++ trail) (Z.of_nat k) = py_index pre (Z.of_nat k).
Proof.
  intros Hk. destruct pre as [|d pre]; [simpl in Hk; lia|].
  rewrite (py_index_nth (_ ++ _) k d) by (rewrite length_app; lia).
  rewrite (py_index_nth _ k d) by exact Hk.
  now rewrite app_nth1.
Qed.

Lemma np_take_app {A} (pre trail : list A) (idx : list nat) :
  Forall (fun k => (k < length pre)%nat) idx ->
  np_take (pre ++ trail) idx = np_take pre idx.
Proof.
  intros H. unfold np_take. apply mapM_ext_in. intros k Hk.
  rewrite Forall_forall in H. now apply py_index_app, H.
Qed.

Lemma nonzero_from_app (i : nat) (pre trail : list bool) :
  forallb negb trail = true ->
  nonzero_from i (pre ++ trail) = nonzero_from i pre.
Proof.
  intros Ht. revert i.
  induction pre as [|b pre IH]; intros i; simpl.
  - now apply nonzero_from_none.
  - rewrite IH. reflexivity.
Qed.

Lemma nonzero_from_bound (i : nat) (flags : list bool) :
  Forall (fun k => (k < i + length flags)%nat) (nonzero_from i flags).
Proof.
  revert i. induction flags as [|b flags IH]; intros i; simpl; [constructor|].
  specialize (IH (S i)).
  assert (H : Forall (fun k => (k < i + S (length flags))%nat)
                     (nonzero_from (S i) flags)).
  { eapply Forall_impl; [|exact IH]. simpl. intros; lia. }
  destruct b; [constructor; [lia | exact H] | exact H].
Qed.

Lemma episode_ranges_bound (n : nat) (episode_ends : list nat) :
  Forall (fun k => (k < n)%nat) episode_ends ->
  forall episode_start,
    Forall (Forall (fun k => (k < n)%nat))
           (episode_ranges episode_start episode_ends).
Proof.
  induction 1 as [|e ends He Hends IH]; intros s; simpl; constructor.
  - apply Forall_forall. intros k Hk. apply in_seq in Hk. lia.
  - apply IH.
Qed.

(** The decisions after the last terminal flag do not reach the reshaped
    tensors: the reshaper gives the same result on the stream cut after
    its last terminal flag. *)
Lemma transform_ignores_trailing_rows
    (is_terminals trailing_flags : list bool)
    (actions actions' : mat) (rewards rewards' : vec)
    (logged_propensities logged_propensities' : vec)
    (target_propensities target_propensities' : mat)
    (estimated_Q_values estimated_Q_values' : mat) :
  forallb negb trailing_flags = true ->
  (0 < length is_terminals)%nat ->
  length actions = length is_terminals ->
  length rewards = length is_terminals ->
  length logged_propensities = length is_terminals ->
  length target_propensities = length is_terminals ->
  length estimated_Q_values = length is_terminals ->
  transform_to_equal_length_trajectories
    (is_terminals ++ trailing_flags) (actions ++ actions')
    (rewards ++ rewards') (logged_propensities ++ logged_propensities')
    (target_propensities ++ target_propensities')
    (estimated_Q_values ++ estimated_Q_values')
  = transform_to_equal_length_trajectories
      is_terminals actions rewards logged_propensities target_propensities
      estimated_Q_values.
Proof.
  intros Htrail Hpos Ha Hr Hl Ht Hq.
  unfold transform_to_equal_length_trajectories, np_nonzero.
  rewrite (nonzero_from_app 0 _ _ Htrail).
  change 0 with (Z.of_nat 0).
  rewrite py_index_app by (rewrite Ht; exact Hpos).
  pose proof (episode_ranges_bound (length is_terminals)
                (nonzero_from 0 is_terminals)
                (nonzero_from_bound 0 is_terminals) 0%nat) as Hb.
  set (trajectories := episode_ranges 0 (nonzero_from 0 is_terminals)) in *.
  rewrite Forall_forall in Hb.
  rewrite (mapM_ext_in (np_take (actions ++ actions')) (np_take actions))
    by (intros tr Htr; apply np_take_app; rewrite Ha; now apply Hb).
  rewrite (mapM_ext_in (np_take (rewards ++ rewards')) (np_take rewards))
    by (intros tr Htr; apply np_take_app; rewrite Hr; now apply Hb).
  rewrite (mapM_ext_in (np_take (logged_propensities ++ _))
                       (np_take logged_propensities))
    by (intros tr Htr; apply np_take_app; rewrite Hl; now apply Hb).
  rewrite (mapM_ext_in (np_take (target_propensities ++ _))
                       (np_take target_propensities))
    by (intros tr Htr; apply np_take_app; rewrite Ht; now apply Hb).
  rewrite (mapM_ext_in (np_take (estimated_Q_values ++ _))
                       (np_take estimated_Q_values))
    by (intros tr Htr; apply np_take_app; rewrite Hq; now apply Hb).
  reflexivity.
Qed.


(** C3 (amended): on a stream without a true terminal flag the reshaper
    raises: no episode is found, the array built from no tuple has a single
    axis, and exchanging its axes 0 and 1 fails (an empty
    [target_propensities] fails earlier, at its row 0). *)
Theorem transform_without_terminal_raises
    (is_terminals : list bool) (actions : mat) (rewards : vec)
    (logged_propensities : vec) (target_propensities estimated_Q_values : mat) :
  forallb negb is_terminals = true ->
  transform_to_equal_length_trajectories is_terminals actions rewards
    logged_propensities target_propensities estimated_Q_values
  = Raise (match target_propensities with
           | [] => IndexError
           | _ => AxisError
           end).
Proof.
  intros H. unfold transform_to_equal_length_trajectories, np_nonzero.
  rewrite (nonzero_from_none 0 _ H).
  destruct target_propensities as [|t0 tp]; reflexivity.
Qed.

(** The theorem on a stream of two decisions. *)
Lemma transform_without_terminal_raises_witness :
  forallb negb [false; false] = true /\
  transform_to_equal_length_trajectories [false; false]
    [[one]; [one]] [one; one] [one; one] [[one]; [one]] [[zero]; [zero]]
  = Raise AxisError.
Proof.
  split; [reflexivity|].
  apply (transform_without_terminal_raises [false; false]
           [[one]; [one]] [one; one] [one; one] [[one]; [one]]
           [[zero]; [zero]]).
  reflexivity.
Defined.

(** C3, as stated, fails: two decisions, none terminal.  The reshaper
    raises; it returns no tensors, empty or not. *)
Lemma transform_without_terminal_returns_nothing :
  let outcome :=
    transform_to_equal_length_trajectories [false; false]
      [[one]; [one]] [one; one] [one; one] [[one]; [one]] [[zero]; [zero]] in
  outcome = Raise AxisError /\ outcome <> Ok ([], [], [], [], []).
Proof. split; [reflexivity | discriminate]. Qed.


(** C9 (the code at a failing input): two streams of two decisions with the
    only terminal flag on the first decision; they differ in the target
    propensity of the second decision, which lies after the last terminal
    flag.  The first episode's loop runs down to index -1, the last row of
    the stream, and the results differ. *)
Theorem sequential_estimate_reads_last_row :
  let estimate target_propensities :=
    doubly_robust_sequential_policy_estimation one
      [[one]; [one]] [[one]; [one]] [[true]; [false]] [[one]; [one]]
      target_propensities [[zero]; [zero]] in
  py_range_down 0 (-1 - 1) = [0; -1] /\
  estimate [[one]; [frac 1 2]] = Ok (frac 1 2) /\
  estimate [[one]; [one]] = Ok one.
Proof.
  cbv zeta. split; [reflexivity|].
  split; apply (result_eqb_eq num_eqb num_eqb_eq); vm_compute; reflexivity.
Qed.

(** ** The assertion of [report] *)

Lemma list_set_app {A} (pre : list A) (a b : A) (post : list A) :
  list_set (length pre) a (pre ++ b :: post) = pre ++ a :: post.
Proof. induction pre as [|c pre IH]; simpl; [reflexivity|now rewrite IH]. Qed.

Lemma report_loop_spec (input_list : list (option mat)) :
  forall (done batches : list (list mat)),
    (length input_list <= length batches)%nat ->
    report_loop (length done) input_list (done ++ batches)
    = if omitted_after_supplied input_list batches then Raise AssertionError
      else Ok (done ++ append_inputs input_list batches).
Proof.
  unfold omitted_after_supplied, append_inputs.
  induction input_list as [|input rest IH]; intros done batches Hlen.
  - reflexivity.
  - destruct batches as [|batch batches]; [simpl in Hlen; lia|].
    simpl in Hlen. cbn [report_loop].
    rewrite nth_error_app2, Nat.sub_diag by lia. cbn [nth_error].
    destruct input as [x|]; cbn [combine existsb fst snd orb zip_with
                                 length skipn app].
    + rewrite list_set_app.
      replace (S (length done)) with (length (done ++ [batch ++ [x]]))
        by (rewrite length_app; simpl; lia).
      replace (done ++ (batch ++ [x]) :: batches)
        with ((done ++ [batch ++ [x]]) ++ batches)
        by (rewrite <- app_assoc; reflexivity).
      rewrite IH by lia.
      destruct (existsb _ _); [reflexivity|].
      rewrite <- app_assoc. reflexivity.
    + destruct (length batch =? 0)%nat eqn:Hb; cbn [negb orb];
        [|reflexivity].
      replace (S (length done)) with (length (done ++ [batch]))
        by (rewrite length_app; simpl; lia).
      replace (done ++ batch :: batches) with ((done ++ [batch]) ++ batches)
        by (rewrite <- app_assoc; reflexivity).
      rewrite IH by lia.
      destruct (existsb _ _); [reflexivity|].
      rewrite <- app_assoc. reflexivity.
Qed.

(** The loop of [report] fails its assertion exactly when some field is
    omitted whose buffer is not empty; a field supplied while its buffer is
    empty is appended without any check. *)
Lemma report_loop_assertion (input_list : list (option mat))
      (batches : list (list mat)) :
  (length input_list <= length batches)%nat ->
  report_loop 0 input_list batches
  = if omitted_after_supplied input_list batches then Raise AssertionError
    else Ok (append_inputs input_list batches).
Proof. intros H. exact (report_loop_spec input_list [] batches H). Qed.

(** As soon as a field is omitted while its buffer holds a batch, the loop
    of [report] fails its assertion. *)
Lemma report_omitted_after_supplied (self : Evaluator)
      (input_list : list (option mat)) (k : nat) (batch : list mat) :
  length input_list = length (all_batches self) ->
  nth_error input_list k = Some None ->
  nth_error (all_batches self) k = Some batch ->
  batch <> [] ->
  report self input_list = Raise AssertionError.
Proof.
  intros Hlen Hin Hb Hne. unfold report.
  rewrite report_loop_assertion by lia.
  replace (omitted_after_supplied input_list (all_batches self)) with true;
    [reflexivity|].
  symmetry. unfold omitted_after_supplied. apply existsb_exists.
  exists (None, batch). split.
  - clear Hlen. revert k Hin Hb.
    generalize (all_batches self) as batches.
    induction input_list as [|i input_list IH]; intros batches [|k] Hin Hb;
      try discriminate; destruct batches as [|b batches]; try discriminate;
      simpl in *.
    + left. congruence.
    + right. eapply IH; eassumption.
  - simpl. destruct batch; [contradiction | reflexivity].
Qed.

Lemma consistent_inputs_pass (input_list : list (option mat)) :
  forall batches,
    absent_empty (map supplied input_list) batches ->
    omitted_after_supplied input_list batches = false /\
    absent_empty (map supplied input_list) (append_inputs input_list batches).
Proof.
  unfold omitted_after_supplied, append_inputs, absent_empty.
  induction input_list as [|input rest IH]; intros batches H;
    inversion H as [|present batch pattern batches' Hp Hrest]; subst.
  - split; [reflexivity | constructor].
  - destruct (IH batches' Hrest) as [IH1 IH2].
    cbn [combine existsb fst snd zip_with length skipn app map].
    split.
    + rewrite IH1. destruct input; [reflexivity|].
      rewrite (Hp eq_refl). reflexivity.
    + constructor; [|exact IH2].
      destruct input; simpl; [discriminate | exact Hp].
Qed.

Lemma evaluate_batch_no_assertion (self : Evaluator) :
  evaluate_batch self <> Raise AssertionError.
Proof.
  unfold evaluate_batch, assumed_propensities, required, bind.
  destruct (map merge_batch (all_batches self))
    as [|td [|la [|lp [|lr [|lv [|mp [|mv [|mvla [|mai [|]]]]]]]]]];
    try discriminate.
  destruct td, la, lp, lr, lv, mp, mv, mvla; discriminate.
Qed.

Lemma evaluate_batch_batches (self self' : Evaluator) :
  evaluate_batch self = Ok self' -> all_batches self' = all_batches self.
Proof.
  unfold evaluate_batch, assumed_propensities, required, bind.
  destruct (map merge_batch (all_batches self))
    as [|td [|la [|lp [|lr [|lv [|mp [|mv [|mvla [|mai [|]]]]]]]]]];
    try discriminate.
  destruct td, la, lp, lr, lv, mp, mv, mvla; try discriminate;
    intros H; injection H as <-;
    repeat match goal with
           | |- context [append_value_estimates _ ?v] =>
               destruct v as [[? ?] ?]
           | |- context [append_reward_estimates _ ?r] =>
               destruct r as [[? ?] ?]
           end; reflexivity.
Qed.

Lemma cleared_absent_empty (pattern : list bool) (batches : list (list mat)) :
  length pattern = length batches ->
  absent_empty pattern (map (fun _ => []) batches).
Proof.
  unfold absent_empty. revert batches.
  induction pattern as [|p pattern IH]; intros [|b batches] H;
    try discriminate; simpl; constructor; auto.
Qed.

Lemma append_inputs_length (input_list : list (option mat))
      (batches : list (list mat)) :
  length input_list = length batches ->
  length (append_inputs input_list batches) = length batches.
Proof.
  intros H. unfold append_inputs.
  rewrite length_app, zip_with_length, length_skipn. lia.
Qed.

(** When every call of a sequence supplies the same fields, and the buffers
    of the other fields are empty at the start, no call fails the
    assertion. *)
Lemma reports_consistent_no_assertion (pattern : list bool)
      (calls : list (list (option mat))) :
  Forall (fun input_list => map supplied input_list = pattern) calls ->
  forall self,
    absent_empty pattern (all_batches self) ->
    reports self calls <> Raise AssertionError.
Proof.
  induction 1 as [|input_list calls Hpat Hcalls IH]; intros self Hinv.
  - discriminate.
  - cbn [reports]. unfold report.
    assert (Hlen : length input_list = length (all_batches self)).
    { rewrite <- (length_map supplied input_list), Hpat.
      unfold absent_empty in Hinv. now apply Forall2_length in Hinv. }
    rewrite report_loop_assertion by lia.
    rewrite <- Hpat in Hinv.
    destruct (consistent_inputs_pass _ _ Hinv) as [Hno Hinv'].
    rewrite Hno. cbn [bind].
    set (self1 := set_all_batches self _).
    destruct (evaluator_batch_size self1 <=? _).
    + destruct (evaluate_batch self1) as [self2|e] eqn:He; cbn [bind].
      * apply IH. unfold clear_evaluation_containers. simpl.
        apply cleared_absent_empty.
        rewrite (evaluate_batch_batches _ _ He). subst self1. simpl.
        rewrite append_inputs_length by exact Hlen.
        rewrite <- Hlen, <- Hpat. apply length_map.
      * intros Habs. injection Habs as ->.
        now apply (evaluate_batch_no_assertion self1).
    + apply IH. subst self1. simpl. rewrite <- Hpat. exact Hinv'.
Qed.

(** C8 (the code at a failing input): a window of two reports with batch
    size 2; [model_action_idxs] is omitted in the first report and supplied
    in the second.  No assertion fails: the batch is evaluated and the
    buffers are cleared. *)
Theorem report_accepts_omitted_then_supplied :
  let first := [Some [[one]]; None; None; None; None; None; None; None;
                None] in
  let second := [Some [[one]]; None; None; None; None; None; None; None;
                 Some [[zero]]] in
  exists self,
    reports (new_Evaluator 2 one) [first; second] = Ok self /\
    td_loss self = [one] /\
    all_batches self = repeat [] 9.
Proof.
  cbv zeta. eexists. split; [vm_compute; reflexivity|].
  split; [apply vec_eqb_eq; vm_compute|]; reflexivity.
Qed.

(** ** The one-step-earlier weights *)

(** C2 (the code at a failing input): two trajectories of two steps whose
    normalized weights are (1/3, 1/2) and (2/3, 1/2).  The second column of
    the one-step-earlier matrix is the second column of the normalized
    weights, not their first column. *)
Theorem one_earlier_is_not_a_lag :
  exists a r l t q,
    reshape_logged_data two_episodes_actions two_episodes_rewards
      two_episodes_terminals two_episodes_logged two_episodes_target
      two_episodes_Q
    = Ok (a, r, l, t, q) /\
    let importance_weights :=
      normalize_importance_weights
        (mat_op ndiv (sum_axis2 (tensor_op nmul t a)) l) in
    importance_weights = [[frac 1 3; frac 1 2]; [frac 2 3; frac 1 2]] /\
    one_earlier (length a) importance_weights
    = [[frac 1 2; frac 1 2]; [frac 1 2; frac 1 2]] /\
    specified_one_earlier (length a) importance_weights
    = [[frac 1 2; frac 1 3]; [frac 1 2; frac 2 3]] /\
    one_earlier (length a) importance_weights
    <> specified_one_earlier (length a) importance_weights.
Proof.
  do 5 eexists. split; [vm_compute; reflexivity|].
  cbv zeta. split; [|split; [|split]].
  - apply mat_eqb_eq. vm_compute. reflexivity.
  - apply mat_eqb_eq. vm_compute. reflexivity.
  - apply mat_eqb_eq. vm_compute. reflexivity.
  - apply mat_neqb_neq. vm_compute. reflexivity.
Qed.

(** ** The error matrix handed to the minimizer *)

(** C1 (the code at a failing input): 25 episodes of one decision, reward 1,
    estimated Q-value 3, two j-steps.  The 25 subset estimates all equal 1,
    so their standard error is 0 and, the t quantile being finite, the
    confidence interval is [1, 1]; the
    j-step returns are 1 and 3, the bias is (0, 2) and the covariance
    vanishes.  The estimator minimizes over the matrix with the squared
    biases (0, 4) in every row, while the covariance plus the outer product
    of the bias with itself has 4 in the lower right corner only. *)
Theorem weighted_doubly_robust_error_matrix
    (sp_stats_sem : vec -> num) (sp_stats_t_ppf : num -> Z -> num)
    (sp_optimize_minimize : (vec -> mat -> num) -> vec -> mat -> vec) :
  sp_stats_sem (repeat one 25) = zero ->
  is_fin (sp_stats_t_ppf (frac 19 20) 24) = true ->
  let j_step_return_trajectories :=
    [repeat (frac 1 25) 25; repeat (frac 3 25) 25] in
  let covariance := np_cov j_step_return_trajectories in
  let j_step_bias :=
    j_step_bias_of 2 (sum_axis1 j_step_return_trajectories) one one in
  weighted_doubly_robust_sequential_policy_estimation
    sp_stats_sem sp_stats_t_ppf sp_optimize_minimize one
    one_step_episodes_actions one_step_episodes_rewards
    one_step_episodes_terminals one_step_episodes_logged
    one_step_episodes_target one_step_episodes_Q 2
  = Ok (np_dot (sp_optimize_minimize mse_loss [zero; zero]
                  (error_matrix covariance j_step_bias))
               (sum_axis1 j_step_return_trajectories)) /\
  j_step_bias = [zero; frac 2 1] /\
  error_matrix covariance j_step_bias
  = [[zero; frac 4 1]; [zero; frac 4 1]] /\
  specified_error_matrix covariance j_step_bias
  = [[zero; zero]; [zero; frac 4 1]] /\
  error_matrix covariance j_step_bias
  <> specified_error_matrix covariance j_step_bias.
Proof.
  intros Hsem Hppf j_step_return_trajectories covariance j_step_bias.
  assert (HE : error_matrix covariance j_step_bias
               = [[zero; frac 4 1]; [zero; frac 4 1]])
    by (apply mat_eqb_eq; vm_compute; reflexivity).
  assert (HR : sum_axis1 j_step_return_trajectories = [one; frac 3 1])
    by (apply vec_eqb_eq; vm_compute; reflexivity).
  split; [|split; [|split; [exact HE|split]]].
  2: apply vec_eqb_eq; vm_compute; reflexivity.
  2: apply mat_eqb_eq; vm_compute; reflexivity.
  2: apply mat_neqb_neq; vm_compute; reflexivity.
  rewrite HE, HR. clear HE. subst covariance j_step_bias.
  subst j_step_return_trajectories.
  unfold weighted_doubly_robust_sequential_policy_estimation.
  assert (Hre : reshape_logged_data
                  one_step_episodes_actions one_step_episodes_rewards
                  one_step_episodes_terminals one_step_episodes_logged
                  one_step_episodes_target one_step_episodes_Q
                = Ok (repeat [[one]] 25, repeat [one] 25, repeat [one] 25,
                      repeat [[one]] 25, repeat [[frac 3 1]] 25))
    by (vm_compute; reflexivity).
  rewrite Hre. cbv beta iota zeta delta [bind].
  change (py_index (repeat [[one]] 25) 0) with (Ok [[one]]).
  cbv beta iota.
  change (j_step_list 2 (Z.of_nat (length [[one]]))) with [JInf; JInt (-1)].
  set (X := mapM _ [JInf; JInt (-1)]).
  assert (HX : X = Ok [repeat (frac 1 25) 25; repeat (frac 3 25) 25])
    by (apply (result_eqb_eq mat_eqb mat_eqb_eq); vm_compute; reflexivity).
  rewrite HX. clear X HX. cbv beta iota.
  rewrite HR. cbv beta iota.
  set (S := mapM _ (py_range 0 num_subsets_for_cb_estimate)).
  assert (HS : S = Ok (repeat one 25))
    by (apply (result_eqb_eq vec_eqb vec_eqb_eq); vm_compute; reflexivity).
  rewrite HS. clear S HS. cbv beta iota.
  unfold confidence_interval.
  set (M := np_mean (repeat one 25)).
  assert (HM : M = one) by (apply num_eqb_eq; vm_compute; reflexivity).
  rewrite HM, Hsem. clear M HM.
  set (p := ndiv (nadd one _) _).
  assert (Hp : p = frac 19 20) by (apply num_eqb_eq; vm_compute; reflexivity).
  rewrite Hp. clear p Hp.
  change (Z.of_nat (length (repeat one 25)) - 1) with 24.
  destruct (sp_stats_t_ppf (frac 19 20) 24) as [c| | |];
    try discriminate Hppf.
  rewrite nmul_zero_fin, nsub_zero_r, nadd_zero_r. cbv beta iota zeta.
  set (B := j_step_bias_of _ _ _ _).
  assert (HB : B = [zero; frac 2 1])
    by (apply vec_eqb_eq; vm_compute; reflexivity).
  rewrite HB. clear B HB.
  set (C := np_cov _).
  assert (HC : C = [[zero; zero]; [zero; zero]])
    by (apply mat_eqb_eq; vm_compute; reflexivity).
  rewrite HC. clear C HC.
  set (E := error_matrix _ _).
  assert (HE : E = [[zero; frac 4 1]; [zero; frac 4 1]])
    by (apply mat_eqb_eq; vm_compute; reflexivity).
  rewrite HE. clear E HE.
  set (V := np_mean _).
  assert (HV : V = one) by (apply num_eqb_eq; vm_compute; reflexivity).
  rewrite HV, ndiv_one_r. reflexivity.
Qed.

(** The theorem for a standard error that is always 0, a quantile that is
    always 1 and a minimizer that returns its initial point. *)
Lemma weighted_doubly_robust_error_matrix_witness :
  (fun _ : vec => zero) (repeat one 25) = zero /\
  is_fin ((fun (_ : num) (_ : Z) => one) (frac 19 20) 24) = true /\
  weighted_doubly_robust_sequential_policy_estimation
    (fun _ => zero) (fun _ _ => one) (fun _ x _ => x) one
    one_step_episodes_actions one_step_episodes_rewards
    one_step_episodes_terminals one_step_episodes_logged
    one_step_episodes_target one_step_episodes_Q 2
  = Ok (np_dot [zero; zero] [one; frac 3 1]).
Proof.
  split; [reflexivity|]. split; [reflexivity|].
  apply (weighted_doubly_robust_error_matrix
           (fun _ => zero) (fun _ _ => one) (fun _ x _ => x));
    reflexivity.
Defined.

(* ================================================================= *)
(** * Further properties *)

(** ** Order on the rationals *)

Lemma Qc_this_plus (a b : Qc) : (this (a + b)%Qc == this a + this b)%Q.
Proof. unfold Qcplus, Q2Qc. cbn [this]. apply Qred_correct. Qed.

Lemma Qc_this_mult (a b : Qc) : (this (a * b)%Qc == this a * this b)%Q.
Proof. unfold Qcmult, Q2Qc. cbn [this]. apply Qred_correct. Qed.

Lemma Qc_this_opp (a : Qc) : (this (- a)%Qc == - this a)%Q.
Proof. unfold Qcopp, Q2Qc. cbn [this]. apply Qred_correct. Qed.

Lemma Qc_this_minus (a b : Qc) : (this (a - b)%Qc == this a - this b)%Q.
Proof. unfold Qcminus. rewrite Qc_this_plus, Qc_this_opp. reflexivity. Qed.

Lemma qabs_cases (d : Qc) :
  (this d < 0 /\ this (qabs d) == - this d)%Q \/
  (0 <= this d /\ this (qabs d) == this d)%Q.
Proof.
  unfold qabs, Qccompare. destruct (this d ?= this 0%Qc)%Q eqn:Hd.
  - right. apply Qeq_alt in Hd. split; [|reflexivity].
    rewrite Hd. apply Qle_refl.
  - left. apply Qlt_alt in Hd. split; [exact Hd|]. apply Qc_this_opp.
  - right. apply Qgt_alt in Hd. split; [|reflexivity].
    apply Qlt_le_weak. exact Hd.
Qed.

Lemma qabs_opp (d : Qc) : qabs (- d) = qabs d.
Proof.
  apply Qc_is_canon.
  destruct (qabs_cases d) as [[H1 H2]|[H1 H2]];
    destruct (qabs_cases (- d)) as [[H3 H4]|[H3 H4]];
    rewrite Qc_this_opp in *; rewrite H2, H4; lra.
Qed.

(** ** huberLoss *)

Lemma huberLoss_fin (label output : Qc) :
  huberLoss (Fin label) (Fin output) = Fin (huber_of (label - output)).
Proof.
  unfold huberLoss, huber_of, nsub, nadd, nopp, nabs, nltb, one, qabs.
  fold (label - output)%Qc. set (d := (label - output)%Qc).
  destruct (d ?= 0)%Qc eqn:Hd.
  - destruct (Q2Qc 1 ?= d)%Qc; reflexivity.
  - destruct (Q2Qc 1 ?= - d)%Qc; reflexivity.
  - destruct (Q2Qc 1 ?= d)%Qc; reflexivity.
Qed.

Lemma huber_of_cases (d : Qc) :
  (1 < this (qabs d) /\ this (huber_of d) == this (qabs d) - (1 # 2))%Q \/
  (this (qabs d) <= 1 /\
   this (huber_of d) == (1 # 2) * this d * this d)%Q.
Proof.
  unfold huber_of, Qccompare. destruct (this 1%Qc ?= this (qabs d))%Q eqn:H.
  - right. apply Qeq_alt in H. split.
    + rewrite <- H. apply Qle_refl.
    + rewrite !Qc_this_mult. reflexivity.
  - left. apply Qlt_alt in H. split; [exact H|].
    rewrite Qc_this_minus. reflexivity.
  - right. apply Qgt_alt in H. split.
    + apply Qlt_le_weak. exact H.
    + rewrite !Qc_this_mult. reflexivity.
Qed.

Lemma huber_of_opp (d : Qc) : huber_of (- d) = huber_of d.
Proof.
  unfold huber_of. rewrite qabs_opp.
  destruct (1 ?= qabs d)%Qc; try reflexivity; ring.
Qed.


(** X2: the Huber loss is symmetric in its two arguments, also when one of
    them is infinite or NaN. *)
Theorem huberLoss_symmetric (label output : num) :
  huberLoss label output = huberLoss output label.
Proof.
  destruct label as [a| | |], output as [b| | |]; try reflexivity.
  rewrite !huberLoss_fin. f_equal.
  replace (b - a)%Qc with (- (a - b))%Qc by ring.
  symmetry. apply huber_of_opp.
Qed.

(** X3: with [d = label - output], the Huber loss lies between the linear
    piece [|d| - 1/2] and the quadratic piece [d * d / 2]; it is the
    quadratic piece for [|d| <= 1] and the linear piece for [|d| > 1], and
    the two pieces agree at [|d| = 1]. *)
Theorem huberLoss_between_pieces (label output : Qc) :
  let d := (label - output)%Qc in
  exists loss,
    huberLoss (Fin label) (Fin output) = Fin loss /\
    (qabs d - half <= loss)%Qc /\
    (loss <= half * d * d)%Qc /\
    ((qabs d <= 1)%Qc -> loss = (half * d * d)%Qc) /\
    ((1 < qabs d)%Qc -> loss = (qabs d - half)%Qc).
Proof.
  intros d. exists (huber_of d). split; [apply huberLoss_fin|].
  split; [|split; [|split]].
  - unfold Qcle. rewrite Qc_this_minus. change (this half) with (1 # 2)%Q.
    destruct (qabs_cases d) as [[A1 A2]|[A1 A2]];
      destruct (huber_of_cases d) as [[H1 H2]|[H1 H2]];
      rewrite H2; rewrite A2 in *; nra.
  - unfold Qcle. rewrite !Qc_this_mult. change (this half) with (1 # 2)%Q.
    destruct (qabs_cases d) as [[A1 A2]|[A1 A2]];
      destruct (huber_of_cases d) as [[H1 H2]|[H1 H2]];
      rewrite H2; rewrite A2 in *; nra.
  - intros Hle. apply Qc_is_canon. rewrite !Qc_this_mult.
    unfold Qcle in Hle. change (this 1%Qc) with 1%Q in Hle.
    destruct (huber_of_cases d) as [[H1 H2]|[H1 H2]]; rewrite H2; [lra|].
    reflexivity.
  - intros Hlt. apply Qc_is_canon. rewrite Qc_this_minus.
    unfold Qclt in Hlt. change (this 1%Qc) with 1%Q in Hlt.
    destruct (huber_of_cases d) as [[H1 H2]|[H1 H2]]; rewrite H2; [|lra].
    reflexivity.
Qed.

(** The theorem for label 3 and output 1: the loss is the linear piece. *)
Lemma huberLoss_between_pieces_witness :
  (1 < qabs (Q2Qc 3 - Q2Qc 1))%Qc /\
  huberLoss (Fin (Q2Qc 3)) (Fin (Q2Qc 1))
  = Fin (qabs (Q2Qc 3 - Q2Qc 1) - half)%Qc.
Proof.
  split; [reflexivity|].
  destruct (huberLoss_between_pieces (Q2Qc 3) (Q2Qc 1))
    as [loss [Hl [_ [_ [_ Hlin]]]]].
  rewrite Hl. f_equal. apply Hlin. reflexivity.
Defined.

(** ** The rolling averages *)

Lemma recent_window (old recent : list num) :
  length recent = 100%nat ->
  py_slice_from (old ++ recent)
                (Z.max 0 (Z.of_nat (length (old ++ recent)) - 100))
  = recent.
Proof.
  intros H. unfold py_slice_from. rewrite length_app, H.
  replace (Z.max 0 (Z.of_nat (length old + 100) - 100))
    with (Z.of_nat (length old)) by lia.
  replace (Z.of_nat (length old) <? 0) with false
    by (symmetry; apply Z.ltb_ge; lia).
  rewrite Nat2Z.id, skipn_app, Nat.sub_diag, skipn_all. reflexivity.
Qed.

Lemma short_window (history : list num) :
  (length history <= 100)%nat ->
  py_slice_from history (Z.max 0 (Z.of_nat (length history) - 100))
  = history.
Proof.
  intros H. unfold py_slice_from.
  replace (Z.max 0 (Z.of_nat (length history) - 100)) with 0 by lia.
  reflexivity.
Qed.

(** X4: once more than 100 values are recorded, each rolling average is the
    mean of the last 100 values: the older ones do not count. *)
Theorem get_recent_is_mean_of_last_100
    (self : Evaluator) (old recent : list num) :
  length recent = 100%nat ->
  (td_loss self = old ++ recent ->
   get_recent_td_loss self = np_mean recent) /\
  (mc_loss self = old ++ recent ->
   get_recent_mc_loss self = np_mean recent) /\
  (reward_inverse_propensity_score self = old ++ recent ->
   get_recent_inverse_propensity_score self = np_mean recent) /\
  (reward_direct_method self = old ++ recent ->
   get_recent_direct_method self = np_mean recent) /\
  (reward_doubly_robust self = old ++ recent ->
   get_recent_doubly_robust self = np_mean recent).
Proof.
  intros H.
  unfold get_recent_td_loss, get_recent_mc_loss,
    get_recent_inverse_propensity_score, get_recent_direct_method,
    get_recent_doubly_robust.
  repeat split; intros ->; cbv zeta; now rewrite recent_window.
Qed.

(** The theorem for a history of 101 TD losses: a 5, then a hundred 1. *)
Lemma get_recent_is_mean_of_last_100_witness :
  let self :=
    mkEvaluator [] ([frac 5 1] ++ repeat one 100) [] [] [] [] [] [] 1
                (repeat [] 9) one in
  length (repeat one 100) = 100%nat /\
  td_loss self = [frac 5 1] ++ repeat one 100 /\
  get_recent_td_loss self = np_mean (repeat one 100).
Proof.
  intros self. split; [reflexivity|]. split; [reflexivity|].
  apply (get_recent_is_mean_of_last_100 self [frac 5 1] (repeat one 100));
    reflexivity.
Defined.

(** X5: with at most 100 recorded values each rolling average is the mean
    of all of them, and with none it is NaN (the mean of an empty array),
    not an error. *)
Theorem get_recent_of_short_history (self : Evaluator) :
  ((length (td_loss self) <= 100)%nat ->
   get_recent_td_loss self = np_mean (td_loss self)) /\
  ((length (mc_loss self) <= 100)%nat ->
   get_recent_mc_loss self = np_mean (mc_loss self)) /\
  ((length (reward_inverse_propensity_score self) <= 100)%nat ->
   get_recent_inverse_propensity_score self
   = np_mean (reward_inverse_propensity_score self)) /\
  ((length (reward_direct_method self) <= 100)%nat ->
   get_recent_direct_method self = np_mean (reward_direct_method self)) /\
  ((length (reward_doubly_robust self) <= 100)%nat ->
   get_recent_doubly_robust self = np_mean (reward_doubly_robust self)) /\
  (td_loss self = [] -> get_recent_td_loss self = NaN) /\
  (mc_loss self = [] -> get_recent_mc_loss self = NaN) /\
  (reward_inverse_propensity_score self = [] ->
   get_recent_inverse_propensity_score self = NaN) /\
  (reward_direct_method self = [] -> get_recent_direct_method self = NaN) /\
  (reward_doubly_robust self = [] -> get_recent_doubly_robust self = NaN).
Proof.
  unfold get_recent_td_loss, get_recent_mc_loss,
    get_recent_inverse_propensity_score, get_recent_direct_method,
    get_recent_doubly_robust.
  repeat split; intros H; cbv zeta;
    try (now rewrite short_window); rewrite H; reflexivity.
Qed.

(** The theorem for a fresh evaluator. *)
Lemma get_recent_of_short_history_witness :
  td_loss (new_Evaluator 10 one) = [] /\
  get_recent_td_loss (new_Evaluator 10 one) = NaN.
Proof.
  split; [reflexivity|].
  apply (get_recent_of_short_history (new_Evaluator 10 one)). reflexivity.
Defined.

(** ** default_normalizer *)

Section OrderedDictFacts.

Variables K V : Type.
Variable K_eq_dec : forall x y : K, {x = y} + {x <> y}.

Lemma od_get_set (d : list (K * V)) (k k' : K) (v : V) :
  od_get K V K_eq_dec (od_set K V K_eq_dec d k v) k'
  = if K_eq_dec k' k then Some v else od_get K V K_eq_dec d k'.
Proof.
  induction d as [|[k0 v0] d IH]; simpl.
  - destruct (K_eq_dec k' k); reflexivity.
  - destruct (K_eq_dec k k0) as [->|Hk]; simpl.
    + destruct (K_eq_dec k' k0); reflexivity.
    + destruct (K_eq_dec k' k0) as [->|Hk'].
      * destruct (K_eq_dec k0 k); [congruence | reflexivity].
      * exact IH.
Qed.

Lemma od_set_keys (d : list (K * V)) (k : K) (v : V) :
  map fst (od_set K V K_eq_dec d k v)
  = if in_dec K_eq_dec k (map fst d) then map fst d else map fst d ++ [k].
Proof.
  induction d as [|[k0 v0] d IH]; simpl; [reflexivity|].
  destruct (K_eq_dec k k0) as [->|Hk]; simpl.
  - destruct (K_eq_dec k0 k0); [reflexivity | congruence].
  - rewrite IH. destruct (K_eq_dec k0 k); [congruence|].
    destruct (in_dec K_eq_dec k (map fst d)); reflexivity.
Qed.

Lemma OrderedDict_from (items : list (K * V)) :
  forall d : list (K * V),
    NoDup (map fst d) ->
    let d' := fold_left (fun d item => od_set K V K_eq_dec d (fst item)
                                              (snd item)) items d in
    NoDup (map fst d') /\
    (forall k,
       In k (map fst d') <-> In k (map fst d) \/ In k (map fst items)) /\
    (NoDup (map fst d ++ map fst items) ->
     map fst d' = map fst d ++ map fst items).
Proof.
  induction items as [|[k v] items IH]; intros d Hd; simpl.
  - split; [exact Hd|]. split; [intros k; tauto|].
    intros _. now rewrite app_nil_r.
  - assert (Hset : NoDup (map fst (od_set K V K_eq_dec d k v))).
    { rewrite od_set_keys. destruct (in_dec K_eq_dec k (map fst d)) as [|Hn];
        [exact Hd|].
      apply NoDup_app; [exact Hd | repeat constructor; simpl; tauto|].
      intros x Hx [<-|[]]. contradiction. }
    destruct (IH _ Hset) as [IH1 [IH2 IH3]]. split; [exact IH1|]. split.
    + intros k'. rewrite IH2, od_set_keys.
      destruct (in_dec K_eq_dec k (map fst d)) as [Hin|Hn].
      * split; [tauto|]. intros [H|[<-|H]]; tauto.
      * rewrite in_app_iff. simpl. tauto.
    + intros Hnd. rewrite IH3.
      * rewrite od_set_keys.
        destruct (in_dec K_eq_dec k (map fst d)) as [Hin|Hn].
        -- exfalso. apply NoDup_remove_2 in Hnd. apply Hnd.
           rewrite in_app_iff. tauto.
        -- rewrite <- app_assoc. reflexivity.
      * rewrite od_set_keys.
        destruct (in_dec K_eq_dec k (map fst d)) as [Hin|Hn].
        -- exfalso. apply NoDup_remove_2 in Hnd. apply Hnd.
           rewrite in_app_iff. tauto.
        -- rewrite <- app_assoc. exact Hnd.
Qed.

Lemma OrderedDict_get_constant (items : list (K * V)) (v : V) :
  Forall (fun item => snd item = v) items ->
  forall (d : list (K * V)) (k : K),
    od_get K V K_eq_dec
      (fold_left (fun d item => od_set K V K_eq_dec d (fst item) (snd item))
                 items d) k
    = if in_dec K_eq_dec k (map fst items) then Some v
      else od_get K V K_eq_dec d k.
Proof.
  induction 1 as [|[k0 v0] items Hv Hitems IH]; intros d k; simpl;
    [reflexivity|].
  simpl in Hv. subst v0. rewrite IH, od_get_set.
  destruct (in_dec K_eq_dec k (map fst items)) as [Hin|Hn].
  - destruct (K_eq_dec k0 k); reflexivity.
  - destruct (K_eq_dec k k0) as [->|Hk].
    + destruct (K_eq_dec k0 k0); [reflexivity | congruence].
    + destruct (K_eq_dec k0 k); [congruence | reflexivity].
Qed.

End OrderedDictFacts.

(** X6: [default_normalizer] maps every feature of [feats] to the same
    parameters (continuous, mean 0, standard deviation 1, the given bounds)
    and knows no other feature; its keys are the features of [feats], each
    once, and they are [feats] itself when no feature is repeated. *)
Theorem default_normalizer_lookup {K}
    (K_eq_dec : forall x y : K, {x = y} + {x <> y})
    (feats : list K) (min_value max_value : option num) :
  let normalization :=
    default_normalizer K_eq_dec feats min_value max_value in
  (forall feat,
     od_get K NormalizationParameters K_eq_dec normalization feat
     = if in_dec K_eq_dec feat feats
       then Some (default_parameters min_value max_value)
       else None) /\
  NoDup (map fst normalization) /\
  (forall feat, In feat (map fst normalization) <-> In feat feats) /\
  (NoDup feats -> map fst normalization = feats).
Proof.
  intros normalization. subst normalization.
  unfold default_normalizer, OrderedDict.
  set (items := map _ feats).
  assert (Hkeys : map fst items = feats).
  { subst items. rewrite map_map. simpl. apply map_id. }
  split.
  - intros feat.
    rewrite (OrderedDict_get_constant K NormalizationParameters K_eq_dec
               items (default_parameters min_value max_value)).
    + rewrite Hkeys. reflexivity.
    + subst items. apply Forall_forall. intros item Hitem.
      apply in_map_iff in Hitem as [f [<- _]]. reflexivity.
  - destruct (OrderedDict_from K NormalizationParameters K_eq_dec items []
                (NoDup_nil K)) as [H1 [H2 H3]].
    split; [exact H1|]. split.
    + intros feat. rewrite H2, Hkeys. simpl. tauto.
    + intros Hnd. etransitivity; [apply H3 | exact Hkeys].
      simpl. now rewrite Hkeys.
Qed.

(** The theorem for the features 3, 5, 3 without bounds. *)
Lemma default_normalizer_lookup_witness :
  NoDup [3; 5] /\
  map fst (default_normalizer Z.eq_dec [3; 5] None None) = [3; 5] /\
  od_get Z NormalizationParameters Z.eq_dec
         (default_normalizer Z.eq_dec [3; 5; 3] None None) 5
  = Some (default_parameters None None).
Proof.
  assert (Hnd : NoDup [3; 5])
    by (repeat constructor; simpl; intuition discriminate).
  split; [exact Hnd|]. split.
  - apply (default_normalizer_lookup Z.eq_dec [3; 5] None None). exact Hnd.
  - destruct (default_normalizer_lookup Z.eq_dec [3; 5; 3] None None)
      as [Hget _].
    rewrite Hget. reflexivity.
Defined.

(** ** The episodes of the reshaper *)

Lemma skipn_cons_nth {A} (l : list A) (s : nat) (d : A) :
  (s < length l)%nat -> skipn s l = nth s l d :: skipn (S s) l.
Proof.
  revert s. induction l as [|a l IH]; intros [|s] H; simpl in *;
    try lia; try reflexivity.
  apply IH. lia.
Qed.

Lemma np_take_seq {A} (l : list A) (k : nat) :
  forall s, (s + k <= length l)%nat ->
            np_take l (seq s k) = Ok (firstn k (skipn s l)).
Proof.
  unfold np_take. induction k as [|k IH]; intros s H; [reflexivity|].
  destruct l as [|d l']; [simpl in H; lia|].
  set (l := d :: l') in *. cbn [seq mapM].
  rewrite (py_index_nth l s d) by lia. cbn [bind].
  rewrite IH by lia. cbn [bind].
  rewrite (skipn_cons_nth l s d) by lia. reflexivity.
Qed.

Lemma take_episode {A} (pre : list A) (a : A) (rest : list A) (s : nat) :
  (s <= length pre)%nat ->
  np_take (pre ++ a :: rest) (seq s (length pre + 1 - s))
  = Ok (skipn s pre ++ [a]).
Proof.
  intros H. rewrite np_take_seq by (rewrite length_app; simpl; lia).
  f_equal. rewrite skipn_app.
  replace (s - length pre)%nat with 0%nat by lia. cbn [skipn].
  rewrite firstn_app, length_skipn.
  replace (length pre + 1 - s - (length pre - s))%nat with 1%nat by lia.
  rewrite firstn_all2 by (rewrite length_skipn; lia). reflexivity.
Qed.

Lemma take_episodes {A} (flags : list bool) :
  forall (pre rest : list A) (s : nat),
    (s <= length pre)%nat ->
    (length flags <= length rest)%nat ->
    mapM (np_take (pre ++ rest))
         (episode_ranges s (nonzero_from (length pre) flags))
    = Ok (cut_episodes flags rest (skipn s pre)).
Proof.
  induction flags as [|b flags IH]; intros pre rest s Hs Hlen;
    [reflexivity|].
  destruct rest as [|a rest]; [simpl in Hlen; lia|].
  simpl in Hlen.
  assert (Happ : pre ++ a :: rest = (pre ++ [a]) ++ rest)
    by (rewrite <- app_assoc; reflexivity).
  assert (Hpre : length (pre ++ [a]) = S (length pre))
    by (rewrite length_app; simpl; lia).
  destruct b; cbn [nonzero_from episode_ranges mapM cut_episodes].
  - rewrite take_episode by exact Hs. cbn [bind].
    rewrite Happ, Nat.add_1_r, <- Hpre.
    rewrite IH by lia. cbn [bind].
    rewrite skipn_all. reflexivity.
  - rewrite Happ, <- Hpre. rewrite IH by lia.
    rewrite skipn_app. replace (s - length pre)%nat with 0%nat by lia.
    reflexivity.
Qed.

Lemma cut_episodes_nonempty {A} (flags : list bool) :
  forall x current : list A,
    Forall (fun episode => episode <> []) (cut_episodes flags x current).
Proof.
  induction flags as [|b flags IH]; intros [|a x] current; simpl;
    try constructor.
  destruct b; [constructor|]; auto.
  destruct current; discriminate.
Qed.

Lemma cut_episodes_lengths {A B} (flags : list bool) :
  forall (x cx : list A) (y cy : list B),
    length x = length y -> length cx = length cy ->
    map (@length A) (cut_episodes flags x cx)
    = map (@length B) (cut_episodes flags y cy).
Proof.
  induction flags as [|b flags IH]; intros [|a x] cx [|c y] cy Hl Hc;
    simpl in *; try reflexivity; try discriminate.
  destruct b; simpl.
  - f_equal; [rewrite !length_app; simpl; lia|]. apply IH; [lia|reflexivity].
  - apply IH; [lia|]. rewrite !length_app. simpl. lia.
Qed.

Lemma cut_episodes_count {A} (flags : list bool) :
  forall x current : list A,
    (length flags <= length x)%nat ->
    length (cut_episodes flags x current) = count_true flags.
Proof.
  unfold count_true.
  induction flags as [|b flags IH]; intros [|a x] current H; simpl in *;
    try reflexivity; try lia.
  destruct b; simpl; [f_equal|]; apply IH; lia.
Qed.



(** ** Padding to the longest episode *)

Lemma transpose_tuples {A} (x : list (list A)) (fill_value : A)
      (steps : list nat) :
  transpose (length x)
            (map (fun t => map (fun episode => nth t episode fill_value) x)
                 steps)
  = map (fun episode => map (fun t => nth t episode fill_value) steps) x.
Proof.
  induction steps as [|t steps IH]; simpl.
  - induction x; simpl; [reflexivity | now f_equal].
  - rewrite IH. clear IH. induction x as [|e x IHx]; simpl; [reflexivity|].
    now rewrite IHx.
Qed.

Lemma nth_over_steps {A} (episode : list A) (fill_value : A) :
  forall n, (length episode <= n)%nat ->
            map (fun t => nth t episode fill_value) (seq 0 n)
            = episode ++ repeat fill_value (n - length episode).
Proof.
  induction episode as [|a episode IH]; intros n H.
  - simpl. rewrite Nat.sub_0_r. clear H.
    generalize 0%nat. induction n as [|n IHn]; intros s; simpl;
      [reflexivity|].
    rewrite IHn. now destruct s.
  - destruct n as [|n]; [simpl in H; lia|]. simpl in H.
    cbn [seq map nth length Nat.sub app]. f_equal.
    rewrite <- seq_shift, map_map. apply IH. lia.
Qed.

Lemma longest_bound {A} (x : list (list A)) (episode : list A) :
  In episode x -> (length episode <= longest x)%nat.
Proof.
  unfold longest. induction x as [|e x IH]; intros H; [contradiction|].
  destruct H as [<-|H]; simpl.
  - apply Nat.le_max_l.
  - etransitivity; [now apply IH | apply Nat.le_max_r].
Qed.

Lemma to_equal_length_pads {A} (x : list (list A)) (fill_value : A) :
  (0 < longest x)%nat ->
  to_equal_length x fill_value = Ok (pad_to_longest fill_value x).
Proof.
  intros H. unfold to_equal_length, zip_longest. fold (longest x).
  set (tuples := map _ (seq 0 (longest x))).
  assert (Hswap : swapaxes01 tuples = Ok (transpose (length x) tuples)).
  { subst tuples. destruct (longest x) as [|n]; [lia|].
    cbn [seq map swapaxes01]. rewrite length_map. reflexivity. }
  rewrite Hswap. subst tuples. rewrite transpose_tuples. f_equal.
  unfold pad_to_longest. apply map_ext_in. intros episode He.
  apply nth_over_steps. now apply longest_bound.
Qed.

Lemma longest_positive {A} (x : list (list A)) :
  x <> [] -> Forall (fun episode => episode <> []) x -> (0 < longest x)%nat.
Proof.
  destruct x as [|e x]; [congruence|]. intros _ H.
  inversion H as [|? ? He _]; subst. unfold longest. cbn [map fold_right].
  eapply Nat.lt_le_trans; [|apply Nat.le_max_l].
  destruct e; [congruence | simpl; lia].
Qed.

Lemma count_true_positive (flags : list bool) :
  existsb (fun b : bool => b) flags = true -> (0 < count_true flags)%nat.
Proof.
  unfold count_true. induction flags as [|b flags IH]; simpl;
    [discriminate|].
  destruct b; simpl; [lia | exact IH].
Qed.

Lemma take_field {A} (flags : list bool) (x : list A) :
  length x = length flags ->
  mapM (np_take x) (episode_ranges 0 (np_nonzero flags))
  = Ok (cut_episodes flags x []).
Proof.
  intros Hlen. unfold np_nonzero.
  apply (take_episodes flags [] x 0); simpl; lia.
Qed.

Lemma pad_field {A} (flags : list bool) (x : list A) (fill_value : A) :
  existsb (fun b : bool => b) flags = true ->
  length x = length flags ->
  to_equal_length (cut_episodes flags x []) fill_value
  = Ok (pad_to_longest fill_value (cut_episodes flags x [])).
Proof.
  intros Hflag Hlen. apply to_equal_length_pads.
  apply longest_positive; [|apply cut_episodes_nonempty].
  intros Hnil. apply count_true_positive in Hflag.
  rewrite <- (cut_episodes_count flags x []) in Hflag by lia.
  rewrite Hnil in Hflag. simpl in Hflag. lia.
Qed.

Lemma pad_to_longest_rows {A} (fill_value : A) (x : list (list A)) :
  Forall (fun row => length row = longest x) (pad_to_longest fill_value x).
Proof.
  apply Forall_forall. intros row Hrow. unfold pad_to_longest in Hrow.
  apply in_map_iff in Hrow as [episode [<- He]].
  apply longest_bound in He. rewrite length_app, repeat_length. lia.
Qed.

Lemma pad_to_longest_length {A} (fill_value : A) (x : list (list A)) :
  length (pad_to_longest fill_value x) = length x.
Proof. apply length_map. Qed.

Lemma longest_cut {A B} (flags : list bool) (x : list A) (y : list B) :
  length x = length y ->
  longest (cut_episodes flags x []) = longest (cut_episodes flags y []).
Proof.
  intros H. unfold longest.
  now rewrite (cut_episodes_lengths flags x [] y []).
Qed.

Lemma padded_field {A B} (flags : list bool) (x : list A) (y : list B)
      (fill_value : A) :
  length x = length flags -> length y = length flags ->
  length (pad_to_longest fill_value (cut_episodes flags x []))
  = count_true flags /\
  Forall (fun row => length row = longest (cut_episodes flags y []))
         (pad_to_longest fill_value (cut_episodes flags x [])).
Proof.
  intros Hx Hy. split.
  - rewrite pad_to_longest_length. apply cut_episodes_count.
    now apply Nat.eq_le_incl.
  - rewrite <- (longest_cut flags x y) by congruence.
    apply pad_to_longest_rows.
Qed.

Lemma longest_cut_bound {A} (flags : list bool) :
  forall x current : list A,
    (longest (cut_episodes flags x current)
     <= length current + length flags)%nat.
Proof.
  unfold longest.
  induction flags as [|b flags IH]; intros [|a x] current; simpl;
    try lia.
  destruct b; cbn [map fold_right].
  - specialize (IH x []). simpl in IH. rewrite length_app. simpl.
    apply Nat.max_lub; lia.
  - specialize (IH x (current ++ [a])). rewrite length_app in IH.
    simpl in IH. lia.
Qed.

(** X7: the reshaper cuts every field of the stream after each terminal
    flag and fills each episode at its end up to the longest one: actions,
    target propensities and Q-values with rows of zeros, rewards with 0,
    logged propensities with 1.  The decisions after the last terminal
    flag are dropped. *)
Theorem transform_cuts_and_pads
    (is_terminals : list bool) (actions : mat) (rewards : vec)
    (logged_propensities : vec) (target_propensities estimated_Q_values : mat) :
  existsb (fun b : bool => b) is_terminals = true ->
  length actions = length is_terminals ->
  length rewards = length is_terminals ->
  length logged_propensities = length is_terminals ->
  length target_propensities = length is_terminals ->
  length estimated_Q_values = length is_terminals ->
  let zeros := np_zeros (length (hd [] target_propensities)) in
  transform_to_equal_length_trajectories is_terminals actions rewards
    logged_propensities target_propensities estimated_Q_values
  = Ok (pad_to_longest zeros (cut_episodes is_terminals actions []),
        pad_to_longest zero (cut_episodes is_terminals rewards []),
        pad_to_longest one (cut_episodes is_terminals logged_propensities []),
        pad_to_longest zeros
          (cut_episodes is_terminals target_propensities []),
        pad_to_longest zeros
          (cut_episodes is_terminals estimated_Q_values [])).
Proof.
  intros Hflag Ha Hr Hl Ht Hq zeros. subst zeros.
  unfold transform_to_equal_length_trajectories.
  destruct target_propensities as [|t0 tp].
  { destruct is_terminals; [discriminate Hflag | discriminate Ht]. }
  change (py_index (t0 :: tp) 0) with (Ok t0). cbn [bind hd].
  rewrite !take_field by assumption. cbn [bind].
  rewrite !pad_field by assumption. reflexivity.
Qed.

(** The theorem for a stream of three decisions over two actions, an
    episode of two steps and an episode of one: the second episode is
    filled with a row of zeros, a reward 0 and a propensity 1. *)
Lemma transform_cuts_and_pads_witness :
  transform_to_equal_length_trajectories
    [false; true; true]
    (int_mat [[1; 0]; [0; 1]; [1; 0]])
    (int_vec [5; 6; 7])
    [frac 1 2; frac 1 3; frac 1 4]
    (int_mat [[1; 0]; [1; 0]; [0; 1]])
    (int_mat [[2; 3]; [4; 5]; [6; 7]])
  = Ok (map int_mat [[[1; 0]; [0; 1]]; [[1; 0]; [0; 0]]],
        int_mat [[5; 6]; [7; 0]],
        [[frac 1 2; frac 1 3]; [frac 1 4; one]],
        map int_mat [[[1; 0]; [1; 0]]; [[0; 1]; [0; 0]]],
        map int_mat [[[2; 3]; [4; 5]]; [[6; 7]; [0; 0]]]).
Proof.
  apply (transform_cuts_and_pads
           [false; true; true]
           (int_mat [[1; 0]; [0; 1]; [1; 0]])
           (int_vec [5; 6; 7])
           [frac 1 2; frac 1 3; frac 1 4]
           (int_mat [[1; 0]; [1; 0]; [0; 1]])
           (int_mat [[2; 3]; [4; 5]; [6; 7]])); reflexivity.
Defined.

(** X8: on a stream with a terminal flag the five reshaped tensors have
    one row per terminal flag, and all their rows have one common length,
    which is at least 1 and at most the length of the stream. *)
Theorem transform_shape
    (is_terminals : list bool) (actions : mat) (rewards : vec)
    (logged_propensities : vec) (target_propensities estimated_Q_values : mat) :
  existsb (fun b : bool => b) is_terminals = true ->
  length actions = length is_terminals ->
  length rewards = length is_terminals ->
  length logged_propensities = length is_terminals ->
  length target_propensities = length is_terminals ->
  length estimated_Q_values = length is_terminals ->
  exists (a : tensor3) (r l : mat) (t q : tensor3) (trajectory_length : nat),
    transform_to_equal_length_trajectories is_terminals actions rewards
      logged_propensities target_propensities estimated_Q_values
    = Ok (a, r, l, t, q) /\
    (0 < count_true is_terminals)%nat /\
    (0 < trajectory_length <= length is_terminals)%nat /\
    (length a = count_true is_terminals /\
     Forall (fun row => length row = trajectory_length) a) /\
    (length r = count_true is_terminals /\
     Forall (fun row => length row = trajectory_length) r) /\
    (length l = count_true is_terminals /\
     Forall (fun row => length row = trajectory_length) l) /\
    (length t = count_true is_terminals /\
     Forall (fun row => length row = trajectory_length) t) /\
    (length q = count_true is_terminals /\
     Forall (fun row => length row = trajectory_length) q).
Proof.
  intros Hflag Ha Hr Hl Ht Hq.
  set (zeros := np_zeros (length (hd [] target_propensities))).
  exists (pad_to_longest zeros (cut_episodes is_terminals actions [])),
    (pad_to_longest zero (cut_episodes is_terminals rewards [])),
    (pad_to_longest one (cut_episodes is_terminals logged_propensities [])),
    (pad_to_longest zeros (cut_episodes is_terminals target_propensities [])),
    (pad_to_longest zeros (cut_episodes is_terminals estimated_Q_values [])),
    (longest (cut_episodes is_terminals rewards [])).
  split.
  { unfold transform_to_equal_length_trajectories. subst zeros.
    destruct target_propensities as [|t0 tp].
    { destruct is_terminals; [discriminate Hflag | discriminate Ht]. }
    change (py_index (t0 :: tp) 0) with (Ok t0). cbn [bind hd].
    rewrite !take_field by assumption. cbn [bind].
    rewrite !pad_field by assumption. reflexivity. }
  split; [now apply count_true_positive|].
  split.
  { split.
    - apply longest_positive; [|apply cut_episodes_nonempty].
      intros Hnil. apply count_true_positive in Hflag.
      rewrite <- (cut_episodes_count is_terminals rewards []) in Hflag
        by lia.
      rewrite Hnil in Hflag. simpl in Hflag. lia.
    - apply (longest_cut_bound is_terminals rewards []). }
  split; [now apply padded_field|].
  split; [now apply padded_field|].
  split; [now apply padded_field|].
  split; now apply padded_field.
Qed.

(** The theorem for a stream of three decisions, two of them terminal. *)
Lemma transform_shape_witness :
  exists (a : tensor3) (r l : mat) (t q : tensor3) (trajectory_length : nat),
    transform_to_equal_length_trajectories
      [false; true; true]
      (int_mat [[1; 0]; [0; 1]; [1; 0]])
      (int_vec [5; 6; 7])
      [frac 1 2; frac 1 3; frac 1 4]
      (int_mat [[1; 0]; [1; 0]; [0; 1]])
      (int_mat [[2; 3]; [4; 5]; [6; 7]])
    = Ok (a, r, l, t, q) /\
    (0 < count_true [false; true; true])%nat /\
    (0 < trajectory_length <= 3)%nat /\
    (length a = count_true [false; true; true] /\
     Forall (fun row => length row = trajectory_length) a) /\
    (length r = count_true [false; true; true] /\
     Forall (fun row => length row = trajectory_length) r) /\
    (length l = count_true [false; true; true] /\
     Forall (fun row => length row = trajectory_length) l) /\
    (length t = count_true [false; true; true] /\
     Forall (fun row => length row = trajectory_length) t) /\
    (length q = count_true [false; true; true] /\
     Forall (fun row => length row = trajectory_length) q).
Proof.
  apply (transform_shape
           [false; true; true]
           (int_mat [[1; 0]; [0; 1]; [1; 0]])
           (int_vec [5; 6; 7])
           [frac 1 2; frac 1 3; frac 1 4]
           (int_mat [[1; 0]; [1; 0]; [0; 1]])
           (int_mat [[2; 3]; [4; 5]; [6; 7]])); reflexivity.
Defined.



(** ** The horizons of the weighted estimator *)

Lemma map_constant {A B} (f : A -> B) (c : B) (l : list A) :
  (forall a, In a l -> f a = c) -> map f l = repeat c (length l).
Proof.
  induction l as [|a l IH]; intros H; [reflexivity|]. simpl.
  rewrite (H a) by now left. rewrite IH; [reflexivity|].
  intros b Hb. apply H. now right.
Qed.

(** X10: for [num_j_steps >= 1] and trajectories of at least one step the
    estimator uses exactly [num_j_steps] horizons, the first of them
    infinite; every finite horizon lies between -1 and
    [trajectory_length - 1], so that the step return never cuts it; and
    when the trajectories are shorter than [num_j_steps - 1] all the
    horizons after -1 are the same horizon 0. *)
Theorem j_step_list_horizons (num_j_steps trajectory_length : Z) :
  1 <= num_j_steps -> 1 <= trajectory_length ->
  length (j_step_list num_j_steps trajectory_length)
  = Z.to_nat num_j_steps /\
  hd_error (j_step_list num_j_steps trajectory_length) = Some JInf /\
  Forall (fun j_step =>
            match j_step with
            | JInf => True
            | JInt z =>
                -1 <= z <= trajectory_length - 1 /\
                clamp_j_step j_step (trajectory_length - 1) = z
            end)
         (j_step_list num_j_steps trajectory_length) /\
  (trajectory_length < num_j_steps - 1 ->
   j_step_list num_j_steps trajectory_length
   = JInf :: JInt (-1) :: repeat (JInt 0) (Z.to_nat (num_j_steps - 2))).
Proof.
  intros Hn HL. unfold j_step_list, py_range.
  split; [|split; [reflexivity|split]].
  - destruct (1 <? num_j_steps) eqn:H1; destruct (2 <? num_j_steps) eqn:H2;
      cbn [app length]; rewrite ?length_map, ?length_seq;
      try apply Z.ltb_lt in H1; try apply Z.ltb_ge in H1;
      try apply Z.ltb_lt in H2; try apply Z.ltb_ge in H2; lia.
  - constructor; [exact I|]. apply Forall_app. split.
    + destruct (1 <? num_j_steps); repeat constructor; simpl; lia.
    + destruct (2 <? num_j_steps) eqn:H2; [|constructor].
      apply Z.ltb_lt in H2. apply Forall_forall. intros j Hj.
      apply in_map_iff in Hj as [i [<- Hi]].
      apply in_map_iff in Hi as [k [<- Hk]]. apply in_seq in Hk.
      set (interval := trajectory_length / (num_j_steps - 1)).
      assert (H0 : 0 <= interval) by (apply Z.div_pos; lia).
      assert (Hm : (num_j_steps - 1) * interval <= trajectory_length)
        by (apply Z.mul_div_le; lia).
      assert (Hle : (1 + Z.of_nat k) * interval <= trajectory_length - 1)
        by nia.
      split; [nia|]. unfold clamp_j_step. apply Z.min_l. exact Hle.
  - intros Hshort.
    replace (1 <? num_j_steps) with true by (symmetry; apply Z.ltb_lt; lia).
    replace (2 <? num_j_steps) with true by (symmetry; apply Z.ltb_lt; lia).
    cbn [app]. do 2 f_equal.
    rewrite Z.div_small by lia. rewrite map_map.
    rewrite (map_constant _ (JInt 0)) by (intros; f_equal; lia).
    rewrite length_seq. f_equal. lia.
Qed.

(** The theorem for five horizons on trajectories of eight steps, and on
    trajectories of three. *)
Lemma j_step_list_horizons_witness :
  j_step_list 5 8 = [JInf; JInt (-1); JInt 2; JInt 4; JInt 6] /\
  length (j_step_list 5 8) = 5%nat /\
  j_step_list 5 3 = [JInf; JInt (-1); JInt 0; JInt 0; JInt 0].
Proof.
  split; [reflexivity|]. split.
  - apply (j_step_list_horizons 5 8); lia.
  - apply (j_step_list_horizons 5 3); lia.
Defined.

(** ** The step return at the other horizons *)

Lemma nadd_zero_l (x : num) : nadd zero x = x.
Proof.
  destruct x; unfold nadd, zero; try reflexivity.
  apply f_equal, Qcplus_0_l.
Qed.

Lemma zeros_add (v : vec) (n : nat) :
  (length v <= n)%nat -> vec_op nadd (np_zeros n) v = v.
Proof.
  unfold vec_op, np_zeros. revert n.
  induction v as [|x v IH]; intros [|n] Hn; simpl in *;
    try reflexivity; try lia.
  rewrite nadd_zero_l, IH by lia. reflexivity.
Qed.

Lemma sub_zeros (v : vec) (n : nat) :
  (length v <= n)%nat -> vec_op nsub v (np_zeros n) = v.
Proof.
  unfold vec_op, np_zeros. revert n.
  induction v as [|x v IH]; intros [|n] Hn; simpl in *;
    try reflexivity; try lia.
  rewrite nsub_zero_r, IH by lia. reflexivity.
Qed.

Lemma cols_to_none (m : mat) : cols_to m 0 = repeat [] (length m).
Proof.
  unfold cols_to. induction m as [|r m IH]; simpl; [reflexivity|].
  now rewrite IH.
Qed.

Lemma mat_op_empty_rows (f : num -> num -> num) (a b : nat) :
  mat_op f (repeat [] a) (repeat [] b) = repeat [] (Nat.min a b).
Proof.
  unfold mat_op. revert b.
  induction a as [|a IH]; intros [|b]; simpl; try reflexivity.
  now rewrite IH.
Qed.

Lemma sum_axis1_empty_rows (n : nat) :
  sum_axis1 (repeat [] n) = np_zeros n.
Proof.
  unfold sum_axis1, np_zeros. induction n as [|n IH]; simpl;
    [reflexivity | now rewrite IH].
Qed.

(** X11: on arrays of one shape, with at least one trajectory, the step
    return is defined for every horizon from -1 on, the infinite one
    included, and holds one value per trajectory. *)
Theorem calculate_step_return_defined
    (weighted_discounts weighted_discounts_one_earlier rewards
     estimated_state_values estimated_Q_values : mat)
    (T L : nat) (j_step : jstep) :
  (0 < T)%nat ->
  has_shape rewards T L = true ->
  has_shape weighted_discounts T L = true ->
  has_shape weighted_discounts_one_earlier T L = true ->
  has_shape estimated_state_values T L = true ->
  has_shape estimated_Q_values T L = true ->
  match j_step with JInf => True | JInt z => -1 <= z end ->
  exists j_step_return,
    calculate_step_return weighted_discounts weighted_discounts_one_earlier
      rewards estimated_state_values estimated_Q_values j_step
    = Ok j_step_return /\
    length j_step_return = T.
Proof.
  intros HT Hr Hwd Hwd1 Hv Hq Hj.
  apply has_shape_rows in Hr as [HrT HrL].
  apply has_shape_rows in Hwd as [HwdT HwdL].
  apply has_shape_rows in Hwd1 as [Hwd1T Hwd1L].
  apply has_shape_rows in Hv as [HvT HvL].
  apply has_shape_rows in Hq as [HqT HqL].
  destruct rewards as [|r0 rest]; [simpl in HrT; lia|].
  assert (Hr0 : length r0 = L) by now inversion HrL.
  unfold calculate_step_return. rewrite Hr0.
  set (k := clamp_j_step j_step (Z.of_nat L - 1)).
  assert (Hk : -1 <= k <= Z.of_nat L - 1)
    by (subst k; destruct j_step; simpl; lia).
  clearbody k. set (rewards := r0 :: rest) in *.
  assert (Hlen : forall f a b c d dm,
    length a = T -> length b = T -> length c = T -> length d = T ->
    length dm = T ->
    length (vec_op nsub
              (vec_op nadd
                 (sum_axis1 (mat_op f (cols_to a (k + 1))
                                      (cols_to b (k + 1))))
                 dm)
              (sum_axis1
                 (mat_op nsub
                    (mat_op nmul (cols_to a (k + 1)) (cols_to c (k + 1)))
                    (mat_op nmul (cols_to weighted_discounts_one_earlier
                                          (k + 1))
                                 (cols_to d (k + 1)))))) = T).
  { intros f a b c d dm Ha Hb Hc Hd Hdm.
    unfold vec_op, sum_axis1, mat_op, cols_to.
    repeat (rewrite ?zip_with_length, ?length_map).
    unfold mat, vec in *.
    rewrite Ha, Hb, Hc, Hd, Hdm, Hwd1T. rewrite !Nat.min_id. reflexivity. }
  destruct (k <? Z.of_nat L - 1) eqn:Hlt.
  - apply Z.ltb_lt in Hlt.
    replace (k + 1) with (Z.of_nat (Z.to_nat (k + 1))) by lia.
    rewrite (column_nth weighted_discounts_one_earlier _ zero),
      (column_nth estimated_state_values _ zero);
      try (eapply Forall_impl; [|eassumption]; intros r Hrow;
           simpl in Hrow; lia).
    cbn [bind]. eexists. split; [reflexivity|].
    replace (Z.of_nat (Z.to_nat (k + 1))) with (k + 1) by lia.
    apply Hlen; try assumption.
    unfold vec_op. rewrite zip_with_length, !length_map.
    unfold mat, vec in *. rewrite Hwd1T, HvT. apply Nat.min_id.
  - cbn [bind]. eexists. split; [reflexivity|].
    apply Hlen; try assumption.
    unfold np_zeros. rewrite repeat_length. exact HrT.
Qed.

(** The theorem on one trajectory of two steps, at the horizon 0. *)
Lemma calculate_step_return_defined_witness :
  exists j_step_return,
    calculate_step_return [[frac 1 2; frac 1 4]] [[one; frac 1 2]]
      [[frac 2 1; frac 4 1]] [[frac 3 1; frac 5 1]]
      [[frac 7 1; frac 9 1]] (JInt 0)
    = Ok j_step_return /\
    length j_step_return = 1%nat.
Proof.
  apply (calculate_step_return_defined
           [[frac 1 2; frac 1 4]] [[one; frac 1 2]]
           [[frac 2 1; frac 4 1]] [[frac 3 1; frac 5 1]]
           [[frac 7 1; frac 9 1]] 1 2 (JInt 0));
    try reflexivity; lia.
Defined.

(** X12: at the horizon -1 the step return uses no reward and no control
    variate: it is the state value of the first step under the one-earlier
    weight, trajectory by trajectory. *)
Theorem calculate_step_return_bootstrap
    (weighted_discounts weighted_discounts_one_earlier rewards
     estimated_state_values estimated_Q_values : mat)
    (T L : nat) :
  (0 < T)%nat -> (0 < L)%nat ->
  has_shape rewards T L = true ->
  has_shape weighted_discounts T L = true ->
  has_shape weighted_discounts_one_earlier T L = true ->
  has_shape estimated_state_values T L = true ->
  has_shape estimated_Q_values T L = true ->
  exists first_weights first_values,
    column weighted_discounts_one_earlier 0 = Ok first_weights /\
    column estimated_state_values 0 = Ok first_values /\
    calculate_step_return weighted_discounts weighted_discounts_one_earlier
      rewards estimated_state_values estimated_Q_values (JInt (-1))
    = Ok (vec_op nmul first_weights first_values).
Proof.
  intros HT HL Hr Hwd Hwd1 Hv Hq.
  apply has_shape_rows in Hr as [HrT HrL].
  apply has_shape_rows in Hwd as [HwdT HwdL].
  apply has_shape_rows in Hwd1 as [Hwd1T Hwd1L].
  apply has_shape_rows in Hv as [HvT HvL].
  apply has_shape_rows in Hq as [HqT HqL].
  destruct rewards as [|r0 rest]; [simpl in HrT; lia|].
  assert (Hr0 : length r0 = L) by now inversion HrL.
  assert (Hw : column weighted_discounts_one_earlier (Z.of_nat 0)
               = Ok (map (fun r => nth 0 r zero)
                         weighted_discounts_one_earlier)).
  { apply column_nth. eapply Forall_impl; [|exact Hwd1L].
    intros r Hrow. simpl in Hrow. lia. }
  assert (Hs : column estimated_state_values (Z.of_nat 0)
               = Ok (map (fun r => nth 0 r zero) estimated_state_values)).
  { apply column_nth. eapply Forall_impl; [|exact HvL].
    intros r Hrow. simpl in Hrow. lia. }
  change (Z.of_nat 0) with 0 in Hw, Hs.
  eexists. eexists. split; [exact Hw|]. split; [exact Hs|].
  unfold calculate_step_return. rewrite Hr0.
  replace (clamp_j_step (JInt (-1)) (Z.of_nat L - 1)) with (-1)
    by (simpl; lia).
  replace (-1 <? Z.of_nat L - 1) with true
    by (symmetry; apply Z.ltb_lt; lia).
  change (-1 + 1) with 0. rewrite Hw, Hs. cbn [bind].
  rewrite !cols_to_none, !mat_op_empty_rows, !sum_axis1_empty_rows.
  rewrite zeros_add, sub_zeros; [reflexivity| |].
  - unfold vec_op. rewrite zip_with_length, !length_map.
    unfold mat, vec in *.
    rewrite HwdT, Hwd1T, HvT, HqT. rewrite !Nat.min_id. reflexivity.
  - unfold vec_op. rewrite zip_with_length, !length_map.
    unfold mat, vec in *.
    rewrite HwdT, Hwd1T, HvT, HrT. rewrite !Nat.min_id. reflexivity.
Qed.

(** The theorem on one trajectory of two steps. *)
Lemma calculate_step_return_bootstrap_witness :
  exists first_weights first_values,
    column [[one; frac 1 2]] 0 = Ok first_weights /\
    column [[frac 3 1; frac 5 1]] 0 = Ok first_values /\
    calculate_step_return [[frac 1 2; frac 1 4]] [[one; frac 1 2]]
      [[frac 2 1; frac 4 1]] [[frac 3 1; frac 5 1]]
      [[frac 7 1; frac 9 1]] (JInt (-1))
    = Ok (vec_op nmul first_weights first_values).
Proof.
  apply (calculate_step_return_bootstrap
           [[frac 1 2; frac 1 4]] [[one; frac 1 2]]
           [[frac 2 1; frac 4 1]] [[frac 3 1; frac 5 1]]
           [[frac 7 1; frac 9 1]] 1 2);
    try reflexivity; lia.
Defined.

(** ** More on the normalization of the importance weights *)

Lemma has_shape_intro {A} (m : list (list A)) (T L : nat) :
  length m = T -> Forall (fun r => length r = L) m ->
  has_shape m T L = true.
Proof.
  intros HT HL. unfold has_shape. apply andb_true_iff. split.
  - now apply Nat.eqb_eq.
  - apply forallb_forall. intros r Hr. apply Nat.eqb_eq.
    rewrite Forall_forall in HL. now apply HL.
Qed.

Lemma fold_zip_length {A} (f : A -> A -> A) (L : nat) (m : list (list A)) :
  Forall (fun r => length r = L) m ->
  forall r, length r = L -> length (fold_left (zip_with f) m r) = L.
Proof.
  induction 1 as [|r' m Hr' Hm IH]; intros r Hr; simpl; [exact Hr|].
  apply IH. rewrite zip_with_length, Hr, Hr'. apply Nat.min_id.
Qed.

Lemma sum_axis0_length (m : mat) (T L : nat) :
  (0 < T)%nat -> length m = T -> Forall (fun r => length r = L) m ->
  length (sum_axis0 m) = L.
Proof.
  intros HT Hlen Hrows. destruct m as [|r m]; [simpl in Hlen; lia|].
  inversion Hrows; subst. simpl. now apply fold_zip_length.
Qed.

(** X13: the normalization keeps the shape of the weights, whatever they
    hold (infinite values and NaN included). *)
Theorem normalize_importance_weights_shape
    (importance_weights : mat) (T L : nat) :
  has_shape importance_weights T L = true ->
  has_shape (normalize_importance_weights importance_weights) T L = true.
Proof.
  intros Hs. apply has_shape_rows in Hs as [Hlen Hrows].
  unfold normalize_importance_weights, row_broadcast, vec_op.
  apply has_shape_intro.
  - rewrite !length_map. exact Hlen.
  - destruct (Nat.eq_dec T 0) as [->|HT].
    { destruct importance_weights; [constructor | discriminate]. }
    assert (HS : length (sum_axis0 importance_weights) = L)
      by (apply (sum_axis0_length _ T); [lia | assumption..]).
    apply Forall_forall. intros row Hrow.
    apply in_map_iff in Hrow as [r' [<- Hr']].
    apply in_map_iff in Hr' as [r [<- Hr]].
    rewrite Forall_forall in Hrows. specialize (Hrows r Hr).
    rewrite !zip_with_length, !length_map, HS, Hrows.
    rewrite !Nat.min_id. reflexivity.
Qed.

(** The theorem on a 2-by-2 matrix with an infinite entry. *)
Lemma normalize_importance_weights_shape_witness :
  has_shape
    (normalize_importance_weights [[frac 1 2; PInf]; [one; zero]]) 2 2
  = true.
Proof.
  apply (normalize_importance_weights_shape
           [[frac 1 2; PInf]; [one; zero]] 2 2).
  reflexivity.
Defined.

Lemma normalize_fin_mat (m : list (list Qc)) :
  normalize_importance_weights (fin_mat m) = fin_mat (qnormalize m).
Proof.
  rewrite normalize_fin. unfold fin_mat, qnormalize. rewrite map_map.
  apply map_ext. intros r. generalize (qsum_axis0 m). intros S.
  revert r. induction S as [|s S IH]; intros [|x r]; simpl;
    try reflexivity.
  rewrite IH. f_equal. unfold normalized_entry, qnormalized_entry.
  now destruct (Qc_eq_bool s 0%Qc).
Qed.

Lemma of_nat_succ (n : nat) : of_nat (S n) = (1 + of_nat n)%Qc.
Proof.
  apply Qc_is_canon. unfold of_nat, of_Z.
  rewrite Qc_this_plus. cbn [this Q2Qc]. rewrite !Qred_correct.
  rewrite Nat2Z.inj_succ. unfold Z.succ. rewrite inject_Z_plus.
  change (this 1%Qc) with 1%Q. change (inject_Z 1) with 1%Q. ring.
Qed.

Lemma qsum_constant {A} (c : Qc) (l : list A) :
  qsum (map (fun _ => c) l) = (of_nat (length l) * c)%Qc.
Proof.
  induction l as [|a l IH]; simpl.
  - change (of_nat 0) with 0%Qc. ring.
  - change (of_nat (S (length l))) with (of_nat (S (length l))).
    rewrite IH, of_nat_succ. ring.
Qed.

Lemma qnormalize_shape (m : list (list Qc)) (T L : nat) :
  (0 < T)%nat -> has_shape m T L = true ->
  has_shape (qnormalize m) T L = true.
Proof.
  intros HT Hs.
  destruct L as [|L'].
  - apply has_shape_rows in Hs as [Hlen Hrows]. apply has_shape_intro.
    + unfold qnormalize. now rewrite length_map.
    + apply Forall_forall. intros row Hrow. unfold qnormalize in Hrow.
      apply in_map_iff in Hrow as [r [<- Hr]].
      rewrite Forall_forall in Hrows. specialize (Hrows r Hr).
      rewrite zip_with_length, Hrows. apply Nat.min_0_r.
  - destruct (qsum_axis0_nth m T (S L') 0 Hs ltac:(lia) HT) as [HS _].
    apply has_shape_rows in Hs as [Hlen Hrows]. apply has_shape_intro.
    + unfold qnormalize. now rewrite length_map.
    + apply Forall_forall. intros row Hrow. unfold qnormalize in Hrow.
      apply in_map_iff in Hrow as [r [<- Hr]].
      rewrite Forall_forall in Hrows. specialize (Hrows r Hr).
      rewrite zip_with_length, Hrows, HS. apply Nat.min_id.
Qed.

Lemma qnormalize_column_sum (m : list (list Qc)) (T L j : nat) :
  (0 < T)%nat -> has_shape m T L = true -> (j < L)%nat ->
  qsum (qcolumn j (qnormalize m)) = 1%Qc.
Proof.
  intros HT Hs Hj.
  destruct (qsum_axis0_nth m T L j Hs Hj HT) as [HS Hnth].
  apply has_shape_rows in Hs as [Hlen Hrows].
  set (s := qsum (qcolumn j m)) in *.
  assert (Hcol : qcolumn j (qnormalize m)
                 = map (fun r => qnormalized_entry T s (nth j r 0%Qc)) m).
  { unfold qcolumn, qnormalize. rewrite map_map, Hlen.
    apply map_ext_in. intros r Hr.
    rewrite Forall_forall in Hrows. specialize (Hrows r Hr).
    rewrite (zip_with_nth _ _ _ _ 0%Qc 0%Qc) by lia.
    now rewrite Hnth. }
  rewrite Hcol. unfold qnormalized_entry.
  destruct (Qc_eq_bool s 0%Qc) eqn:Hz.
  - rewrite qsum_constant, Hlen. field. now apply of_nat_nonzero.
  - assert (Hne : s <> 0%Qc)
      by (intros H0; rewrite H0, Qc_eq_bool_refl in Hz; discriminate).
    rewrite <- (map_map (fun r => nth j r 0%Qc) (fun x => (x / s)%Qc)).
    fold (qcolumn j m). rewrite qsum_scaled. fold s. now field.
Qed.

Lemma nth_repeat_below {A} (a d : A) (n j : nat) :
  (j < n)%nat -> nth j (repeat a n) d = a.
Proof.
  revert j. induction n as [|n IH]; intros [|j] H; simpl; try lia;
    [reflexivity|]. apply IH. lia.
Qed.

Lemma unit_sums_keep (T L : nat) (r : list Qc) :
  length r = L ->
  zip_with (qnormalized_entry T) (repeat 1%Qc L) r = r.
Proof.
  revert L. induction r as [|x r IH]; intros [|L] H; simpl in *;
    try reflexivity; try discriminate.
  rewrite IH by lia. f_equal. unfold qnormalized_entry.
  rewrite Qc_eq_bool_false by (intros H1; discriminate H1).
  field. intros H1; discriminate H1.
Qed.

Lemma qnormalize_idempotent (m : list (list Qc)) (T L : nat) :
  (0 < T)%nat -> has_shape m T L = true ->
  qnormalize (qnormalize m) = qnormalize m.
Proof.
  intros HT Hs.
  pose proof (qnormalize_shape m T L HT Hs) as Hs'.
  assert (Hsums : qsum_axis0 (qnormalize m) = repeat 1%Qc L).
  { apply (nth_ext _ _ 0%Qc 0%Qc).
    - rewrite repeat_length. destruct L as [|L'].
      + apply has_shape_rows in Hs' as [Hlen Hrows].
        destruct (qnormalize m) as [|r0 rest]; [simpl in Hlen; lia|].
        inversion Hrows; subst. simpl.
        now apply fold_zip_length.
      + now destruct (qsum_axis0_nth _ T (S L') 0 Hs' ltac:(lia) HT).
    - intros j Hjlen.
      assert (Hj : (j < L)%nat).
      { destruct L as [|L'].
        - apply has_shape_rows in Hs' as [Hlen Hrows].
          destruct (qnormalize m) as [|r0 rest]; [simpl in Hlen; lia|].
          inversion Hrows; subst. simpl in Hjlen.
          rewrite (fold_zip_length Qcplus 0 rest) in Hjlen by assumption.
          lia.
        - destruct (qsum_axis0_nth _ T (S L') 0 Hs' ltac:(lia) HT)
            as [Hl _].
          now rewrite Hl in Hjlen. }
      destruct (qsum_axis0_nth _ T L j Hs' Hj HT) as [_ ->].
      rewrite nth_repeat_below by exact Hj.
      now apply (qnormalize_column_sum m T L j). }
  apply has_shape_rows in Hs' as [Hlen Hrows].
  unfold qnormalize at 1. rewrite Hsums.
  rewrite <- (map_id (qnormalize m)) at 3.
  apply map_ext_in. intros r Hr. apply unit_sums_keep.
  rewrite Forall_forall in Hrows. now apply Hrows.
Qed.

(** X14: on a matrix of finite ratios the normalization is idempotent:
    normalizing normalized weights changes nothing. *)
Theorem normalize_importance_weights_idempotent
    (m : list (list Qc)) (T L : nat) :
  has_shape m T L = true ->
  normalize_importance_weights
    (normalize_importance_weights (fin_mat m))
  = normalize_importance_weights (fin_mat m).
Proof.
  intros Hs. destruct (Nat.eq_dec T 0) as [->|HT].
  - apply has_shape_rows in Hs as [Hlen _].
    destruct m; [reflexivity | discriminate].
  - rewrite !normalize_fin_mat.
    now rewrite (qnormalize_idempotent m T L) by (assumption || lia).
Qed.

(** The theorem on a 2-by-2 matrix with a column of zeros. *)
Lemma normalize_importance_weights_idempotent_witness :
  let m := [[Q2Qc (1 # 2); 0%Qc]; [1%Qc; 0%Qc]] in
  normalize_importance_weights
    (normalize_importance_weights (fin_mat m))
  = normalize_importance_weights (fin_mat m).
Proof.
  intros m.
  apply (normalize_importance_weights_idempotent m 2 2). reflexivity.
Defined.

Lemma zip_plus_scaled (c : Qc) (a b : list Qc) :
  zip_with Qcplus (map (Qcmult c) a) (map (Qcmult c) b)
  = map (Qcmult c) (zip_with Qcplus a b).
Proof.
  revert b. induction a as [|x a IH]; intros [|y b]; simpl;
    try reflexivity.
  rewrite IH. f_equal. ring.
Qed.

Lemma qsum_axis0_scaled (c : Qc) (m : list (list Qc)) :
  qsum_axis0 (map (map (Qcmult c)) m) = map (Qcmult c) (qsum_axis0 m).
Proof.
  destruct m as [|r m]; [reflexivity|]. simpl. revert r.
  induction m as [|r' m IH]; intros r; simpl; [reflexivity|].
  rewrite zip_plus_scaled. apply IH.
Qed.

Lemma qnormalized_entry_scaled (T : nat) (c s x : Qc) :
  c <> 0%Qc ->
  qnormalized_entry T (c * s) (c * x) = qnormalized_entry T s x.
Proof.
  intros Hc. unfold qnormalized_entry.
  destruct (Qc_eq_bool s 0%Qc) eqn:Hs.
  - apply Qc_eq_bool_correct in Hs. subst s.
    replace (c * 0)%Qc with 0%Qc by ring.
    now rewrite Qc_eq_bool_refl.
  - assert (Hne : s <> 0%Qc)
      by (intros H0; rewrite H0, Qc_eq_bool_refl in Hs; discriminate).
    rewrite Qc_eq_bool_false.
    + field. split; assumption.
    + intros H0. apply Qcmult_integral in H0 as [H0|H0]; contradiction.
Qed.

(** X15: the normalized weights do not depend on the scale of the ratios:
    multiplying every ratio by one finite nonzero factor changes nothing. *)
Theorem normalize_importance_weights_scale_invariant
    (m : list (list Qc)) (c : Qc) :
  c <> 0%Qc ->
  normalize_importance_weights (map (map (nmul (Fin c))) (fin_mat m))
  = normalize_importance_weights (fin_mat m).
Proof.
  intros Hc.
  assert (Hscaled : map (map (nmul (Fin c))) (fin_mat m)
                    = fin_mat (map (map (Qcmult c)) m)).
  { unfold fin_mat, fin_vec. rewrite !map_map. apply map_ext. intros r.
    rewrite !map_map. reflexivity. }
  rewrite Hscaled, !normalize_fin_mat. f_equal.
  unfold qnormalize. rewrite qsum_axis0_scaled, length_map, map_map.
  apply map_ext. intros r. generalize (qsum_axis0 m). intros S.
  revert r. induction S as [|s S IH]; intros [|x r]; simpl;
    try reflexivity.
  rewrite IH. f_equal. now apply qnormalized_entry_scaled.
Qed.

(** The theorem on a 2-by-2 matrix, scaled by 3. *)
Lemma normalize_importance_weights_scale_invariant_witness :
  let m := [[Q2Qc (1 # 2); 0%Qc]; [1%Qc; 0%Qc]] in
  normalize_importance_weights
    (map (map (nmul (frac 3 1))) (fin_mat m))
  = normalize_importance_weights (fin_mat m).
Proof.
  intros m.
  apply (normalize_importance_weights_scale_invariant m (Q2Qc 3)).
  intros H. discriminate H.
Defined.

(** ** The sequential estimator on a stream without terminal flag *)

Lemma examples_loop_no_terminal
    (gamma : num)
    (direct_method_Q_values importance_weight logged_rewards
     estimated_values_for_action : mat)
    (logged_is_terminals : list (list bool)) :
  forall (todo : list nat) (last_episode_end : Z) (doubly_robusts : list num),
    Forall (fun i => at_row logged_is_terminals (Z.of_nat i) = Ok false)
           todo ->
    examples_loop gamma direct_method_Q_values importance_weight
      logged_rewards estimated_values_for_action logged_is_terminals
      todo last_episode_end doubly_robusts
    = Ok doubly_robusts.
Proof.
  induction todo as [|i todo IH]; intros last acc H; [reflexivity|].
  inversion H as [|? ? Hi Htodo]; subst.
  cbn [examples_loop]. rewrite Hi. cbn [bind]. now apply IH.
Qed.

(** X16: on a stream whose terminal flags are all false the sequential
    estimator finds no episode and raises nothing: it returns the mean of
    no value, NaN. *)
Theorem sequential_estimate_without_terminal
    (gamma : num) (logged_actions logged_rewards : mat)
    (logged_is_terminals : list (list bool))
    (logged_propensities target_propensities estimated_Q_values : mat) :
  (length logged_actions <= length logged_is_terminals)%nat ->
  Forall (fun row => hd_error row = Some false) logged_is_terminals ->
  doubly_robust_sequential_policy_estimation gamma logged_actions
    logged_rewards logged_is_terminals logged_propensities
    target_propensities estimated_Q_values
  = Ok NaN.
Proof.
  intros Hlen Hflags. unfold doubly_robust_sequential_policy_estimation.
  cbv zeta. rewrite examples_loop_no_terminal; [reflexivity|].
  apply Forall_forall. intros i Hi. apply in_seq in Hi.
  unfold at_row. rewrite (py_index_nth _ i []) by lia. cbn [bind].
  assert (Hrow : In (nth i logged_is_terminals []) logged_is_terminals)
    by (apply nth_In; lia).
  rewrite Forall_forall in Hflags. specialize (Hflags _ Hrow).
  destruct (nth i logged_is_terminals []) as [|b row]; [discriminate|].
  injection Hflags as ->. reflexivity.
Qed.

(** The theorem on a stream of two decisions. *)
Lemma sequential_estimate_without_terminal_witness :
  doubly_robust_sequential_policy_estimation one
    [[one]; [one]] [[one]; [one]] [[false]; [false]]
    [[one]; [one]] [[one]; [one]] [[zero]; [zero]]
  = Ok NaN.
Proof.
  apply (sequential_estimate_without_terminal one
           [[one]; [one]] [[one]; [one]] [[false]; [false]]
           [[one]; [one]] [[one]; [one]] [[zero]; [zero]]).
  - simpl. lia.
  - repeat constructor.
Defined.

(** ** The one-step estimator *)

Lemma sum_of_products_with_zeros (r : list Qc) :
  np_sum (vec_op nmul (fin_vec r) (map (fun _ => zero) (fin_vec r))) = zero.
Proof.
  unfold np_sum, vec_op, fin_vec, zero.
  induction r as [|x r IH]; [reflexivity|]. cbn [map zip_with fold_right].
  rewrite IH. unfold nmul, nadd. f_equal. ring.
Qed.

(** X17: for finite target propensities, one row per example, omitting
    the estimated values gives the estimates of estimated values that are
    all zero. *)
Theorem one_step_none_is_zero_values
    (logged_actions logged_rewards logged_propensities : mat)
    (target_propensities : list (list Qc)) :
  length target_propensities = length logged_actions ->
  doubly_robust_one_step_policy_estimation logged_actions logged_rewards
    logged_propensities (fin_mat target_propensities)
    (Some (zeros_like (fin_mat target_propensities)))
  = doubly_robust_one_step_policy_estimation logged_actions logged_rewards
      logged_propensities (fin_mat target_propensities) None.
Proof.
  intros Hlen. unfold doubly_robust_one_step_policy_estimation.
  assert (Hdm :
    sum_axis1_keepdims
      (mat_op nmul (fin_mat target_propensities)
              (zeros_like (fin_mat target_propensities)))
    = repeat [zero] (length logged_actions)).
  { rewrite <- Hlen. clear Hlen.
    unfold sum_axis1_keepdims, mat_op, zeros_like, fin_mat.
    induction target_propensities as [|r m IH]; [reflexivity|].
    cbn [map zip_with repeat length].
    rewrite sum_of_products_with_zeros. f_equal. exact IH. }
  cbv beta iota zeta. rewrite Hdm. reflexivity.
Qed.

(** The theorem for two examples and two actions. *)
Lemma one_step_none_is_zero_values_witness :
  let target := [[Q2Qc (1 # 2); Q2Qc (1 # 2)]; [1%Qc; 0%Qc]] in
  doubly_robust_one_step_policy_estimation
    [[one; zero]; [zero; one]] [[frac 2 1]; [frac 3 1]]
    [[frac 1 2]; [frac 1 4]] (fin_mat target)
    (Some (zeros_like (fin_mat target)))
  = doubly_robust_one_step_policy_estimation
      [[one; zero]; [zero; one]] [[frac 2 1]; [frac 3 1]]
      [[frac 1 2]; [frac 1 4]] (fin_mat target) None.
Proof.
  intros target.
  apply (one_step_none_is_zero_values
           [[one; zero]; [zero; one]] [[frac 2 1]; [frac 3 1]]
           [[frac 1 2]; [frac 1 4]] target).
  reflexivity.
Defined.

Lemma ratio_to_itself (p : list (list Qc)) (r : list (list Qc)) (N : nat) :
  has_shape p N 1 = true -> has_shape r N 1 = true ->
  Forall (Forall (fun x => x <> 0%Qc)) p ->
  mat_op nmul (mat_op ndiv (fin_mat p) (fin_mat p)) (fin_mat r) = fin_mat r.
Proof.
  intros Hp Hr Hne.
  apply has_shape_rows in Hp as [HpN Hp1].
  apply has_shape_rows in Hr as [HrN Hr1].
  subst N. revert r HrN Hr1.
  induction p as [|prow p IH]; intros [|rrow r] HrN Hr1;
    try discriminate; [reflexivity|].
  inversion Hp1 as [|? ? Hprow Hp']; subst.
  inversion Hr1 as [|? ? Hrrow Hr']; subst.
  inversion Hne as [|? ? Hx Hne']; subst.
  destruct prow as [|x [|? ?]]; try discriminate.
  destruct rrow as [|y [|? ?]]; try discriminate.
  inversion Hx as [|? ? Hx0 _]; subst.
  unfold mat_op, fin_mat in *. cbn [map zip_with].
  rewrite IH by (try assumption; simpl in HrN; lia).
  f_equal. unfold vec_op, fin_vec. cbn [map zip_with].
  rewrite ndiv_fin by exact Hx0. unfold nmul. do 2 f_equal.
  now field.
Qed.

(** X18: when the target policy gives every logged action the propensity
    it was logged with, the inverse-propensity estimate is exactly 1,
    whatever the estimated values are (finite nonzero propensities, finite
    rewards whose sum is not zero). *)
Theorem one_step_ips_of_logging_policy
    (logged_actions target_propensities : mat)
    (logged_propensities logged_rewards : list (list Qc)) (N : nat)
    (estimated_values : option mat) :
  has_shape logged_propensities N 1 = true ->
  has_shape logged_rewards N 1 = true ->
  Forall (Forall (fun p => p <> 0%Qc)) logged_propensities ->
  sum_axis1_keepdims (mat_op nmul target_propensities logged_actions)
  = fin_mat logged_propensities ->
  qsum2 logged_rewards <> 0%Qc ->
  fst (fst (doubly_robust_one_step_policy_estimation logged_actions
              (fin_mat logged_rewards) (fin_mat logged_propensities)
              target_propensities estimated_values))
  = one.
Proof.
  intros Hp Hr Hne Hon Htotal.
  unfold doubly_robust_one_step_policy_estimation.
  destruct estimated_values as [estimated_values|]; cbv beta iota zeta;
    cbn [fst]; unfold one_step_importance_weight; rewrite Hon;
    rewrite (ratio_to_itself _ _ N) by assumption;
    rewrite np_sum2_fin, ndiv_fin by exact Htotal;
    unfold one; f_equal; now field.
Qed.

(** The theorem for two examples and two actions. *)
Lemma one_step_ips_of_logging_policy_witness :
  fst (fst (doubly_robust_one_step_policy_estimation
              [[one; zero]; [zero; one]]
              (fin_mat [[Q2Qc 2]; [Q2Qc 3]])
              (fin_mat [[Q2Qc (1 # 2)]; [Q2Qc (1 # 4)]])
              [[frac 1 2; frac 1 2]; [frac 3 4; frac 1 4]]
              None))
  = one.
Proof.
  apply (one_step_ips_of_logging_policy
           [[one; zero]; [zero; one]]
           [[frac 1 2; frac 1 2]; [frac 3 4; frac 1 4]]
           [[Q2Qc (1 # 2)]; [Q2Qc (1 # 4)]] [[Q2Qc 2]; [Q2Qc 3]] 2 None).
  - reflexivity.
  - reflexivity.
  - repeat constructor; intros H; discriminate H.
  - apply mat_eqb_eq. vm_compute. reflexivity.
  - intros H. discriminate H.
Defined.

(** ** The weighted estimator on few trajectories *)

Lemma py_index_raises {A} (l : list A) (i : Z) (e : exn) :
  py_index l i = Raise e -> e = IndexError.
Proof.
  unfold py_index.
  destruct (_ || _); [intros H; now injection H|].
  destruct (nth_error _ _); [discriminate|]. intros H; now injection H.
Qed.

Lemma mapM_raises {A B} (f : A -> result B) (E : exn) (l : list A) (e : exn) :
  (forall a e', f a = Raise e' -> e' = E) ->
  mapM f l = Raise e -> e = E.
Proof.
  intros Hf. induction l as [|a l IH]; simpl; [discriminate|].
  destruct (f a) as [b|e'] eqn:Ha; simpl.
  - destruct (mapM f l) as [bs|e'']; simpl; [discriminate|].
    intros H. injection H as <-. now apply IH.
  - intros H. injection H as <-. now apply (Hf a).
Qed.

Lemma mapM_length {A B} (f : A -> result B) (l : list A) (bs : list B) :
  mapM f l = Ok bs -> length bs = length l.
Proof.
  revert bs. induction l as [|a l IH]; intros bs; simpl.
  - intros H. injection H as <-. reflexivity.
  - destruct (f a) as [b|]; simpl; [|discriminate].
    destruct (mapM f l) as [bs'|]; simpl; [|discriminate].
    intros H. injection H as <-. simpl. now rewrite (IH bs').
Qed.

Lemma calculate_step_return_raises
    (weighted_discounts weighted_discounts_one_earlier rewards
     estimated_state_values estimated_Q_values : mat) (j_step : jstep)
    (e : exn) :
  calculate_step_return weighted_discounts weighted_discounts_one_earlier
    rewards estimated_state_values estimated_Q_values j_step
  = Raise e ->
  e = IndexError.
Proof.
  unfold calculate_step_return.
  destruct rewards as [|rewards_0 rest]; [intros H; now injection H|].
  cbv zeta. destruct (_ <? _); [|discriminate].
  destruct (column weighted_discounts_one_earlier _) as [w|e'] eqn:Hw;
    cbn [bind].
  - destruct (column estimated_state_values _) as [v|e'] eqn:Hv;
      cbn [bind]; [discriminate|].
    intros H. injection H as <-.
    apply (mapM_raises _ IndexError _ _ (fun r => py_index_raises r _) Hv).
  - intros H. injection H as <-.
    apply (mapM_raises _ IndexError _ _ (fun r => py_index_raises r _) Hw).
Qed.

(** X19: with two or more horizons the weighted estimator needs at least
    25 trajectories: on fewer, the first of the 25 subsets is empty, and
    the step return of no trajectory raises an index error. *)
Theorem weighted_doubly_robust_needs_25_trajectories
    (sp_stats_sem : vec -> num) (sp_stats_t_ppf : num -> Z -> num)
    (sp_optimize_minimize : (vec -> mat -> num) -> vec -> mat -> vec)
    (gamma : num) (logged_actions logged_rewards : mat)
    (logged_is_terminals : list (list bool))
    (logged_propensities target_propensities estimated_Q_values : mat)
    (num_j_steps : Z)
    (actions : tensor3) (rewards propensities : mat)
    (target estimated_Q : tensor3) :
  reshape_logged_data logged_actions logged_rewards logged_is_terminals
    logged_propensities target_propensities estimated_Q_values
  = Ok (actions, rewards, propensities, target, estimated_Q) ->
  (length actions < 25)%nat ->
  2 <= num_j_steps ->
  weighted_doubly_robust_sequential_policy_estimation
    sp_stats_sem sp_stats_t_ppf sp_optimize_minimize gamma
    logged_actions logged_rewards logged_is_terminals
    logged_propensities target_propensities estimated_Q_values num_j_steps
  = Raise IndexError.
Proof.
  intros Hreshape HT Hn.
  destruct (reshape_rows _ _ _ _ _ _ _ _ _ _ _ Hreshape) as [Ha Hr].
  destruct actions as [|actions_0 actions']; [simpl in Ha; lia|].
  unfold weighted_doubly_robust_sequential_policy_estimation.
  rewrite Hreshape.
  cbv beta iota zeta delta [bind].
  change (py_index (actions_0 :: actions') 0) with (Ok actions_0).
  cbv beta iota.
  set (step_return := calculate_step_return _ _ _ _ _).
  destruct (mapM step_return _) as [trajectories|e] eqn:Hloop.
  - apply mapM_length in Hloop.
    assert (Hsteps :
      length (j_step_list num_j_steps (Z.of_nat (length actions_0)))
      = Z.to_nat num_j_steps).
    { unfold j_step_list, py_range.
      replace (1 <? num_j_steps) with true
        by (symmetry; apply Z.ltb_lt; lia).
      destruct (2 <? num_j_steps) eqn:H2; cbn [app length];
        rewrite ?length_map, ?length_seq;
        try apply Z.ltb_lt in H2; try apply Z.ltb_ge in H2; lia. }
    rewrite Hsteps in Hloop.
    destruct trajectories as [|t1 [|t2 trajectories]];
      simpl in Hloop; try lia.
    cbn [sum_axis1 map].
    replace (py_range 0 num_subsets_for_cb_estimate)
      with (0 :: tl (py_range 0 num_subsets_for_cb_estimate))
      by reflexivity.
    cbn [mapM]. unfold subset_infinite_step_return at 1.
    cbv zeta.
    replace (0 * Z.of_nat (length (actions_0 :: actions'))
             / num_subsets_for_cb_estimate) with 0 by reflexivity.
    replace ((0 + 1) * Z.of_nat (length (actions_0 :: actions'))
             / num_subsets_for_cb_estimate) with 0.
    + reflexivity.
    + symmetry. apply Z.div_small. unfold num_subsets_for_cb_estimate.
      lia.
  - f_equal. subst step_return.
    apply (mapM_raises _ IndexError _ _
             (fun j => calculate_step_return_raises _ _ _ _ _ j) Hloop).
Qed.

(** The theorem on a stream of two episodes of one decision each, for two
    horizons and SciPy routines that return 0. *)
Lemma weighted_doubly_robust_needs_25_trajectories_witness :
  weighted_doubly_robust_sequential_policy_estimation
    (fun _ => zero) (fun _ _ => zero) (fun _ x _ => x) one
    [[one]; [one]] [[one]; [one]] [[true]; [true]]
    [[one]; [one]] [[one]; [one]] [[zero]; [zero]] 2
  = Raise IndexError.
Proof.
  eapply (weighted_doubly_robust_needs_25_trajectories
            (fun _ => zero) (fun _ _ => zero) (fun _ x _ => x) one
            [[one]; [one]] [[one]; [one]] [[true]; [true]]
            [[one]; [one]] [[one]; [one]] [[zero]; [zero]] 2).
  - reflexivity.
  - simpl. lia.
  - lia.
Defined.

(** ** The accumulator between evaluations *)

(** X20: a window that buffered logged actions, model propensities and
    model values, but neither logged propensities nor logged values,
    cannot be evaluated: the propensities of a deterministic logging policy
    are built from the shape of the logged values, which are missing. *)
Theorem evaluate_batch_needs_logged_values (self : Evaluator)
    (td_loss logged_actions logged_rewards model_propensities model_values
     model_values_on_logged_actions model_action_idxs : list mat) :
  all_batches self
  = [td_loss; logged_actions; []; logged_rewards; []; model_propensities;
     model_values; model_values_on_logged_actions; model_action_idxs] ->
  logged_actions <> [] -> model_propensities <> [] -> model_values <> [] ->
  evaluate_batch self = Raise AttributeError.
Proof.
  intros Hb Hla Hmp Hmv. unfold evaluate_batch. rewrite Hb.
  destruct logged_actions; [contradiction|].
  destruct model_propensities; [contradiction|].
  destruct model_values; [contradiction|].
  destruct td_loss; reflexivity.
Qed.

(** The theorem for a window of one batch of each of the three. *)
Lemma evaluate_batch_needs_logged_values_witness :
  evaluate_batch
    (mkEvaluator [] [] [] [] [] [] [] [] 1
       [[[[one]]]; [[[one]]]; []; []; []; [[[one]]]; [[[one]]]; []; []]
       one)
  = Raise AttributeError.
Proof.
  apply (evaluate_batch_needs_logged_values _
           [[[one]]] [[[one]]] [] [[[one]]] [[[one]]] [] []);
    [reflexivity | discriminate..].
Defined.

Lemma evaluate_batch_appends_td_loss (self self' : Evaluator) :
  evaluate_batch self = Ok self' ->
  td_loss_batches self <> [] ->
  length (td_loss self') = S (length (td_loss self)) /\
  evaluator_batch_size self' = evaluator_batch_size self.
Proof.
  unfold evaluate_batch, td_loss_batches, assumed_propensities, required,
    bind.
  destruct (all_batches self) as [|td batches]; [discriminate|].
  cbn [map nth]. intros H Htd.
  destruct td as [|b td]; [contradiction|]. cbn [merge_batch] in H.
  destruct (map merge_batch batches)
    as [|la [|lp [|lr [|lv [|mp [|mv [|mvla [|mai [|]]]]]]]]];
    try discriminate.
  destruct la, lp, lr, lv, mp, mv, mvla; try discriminate;
    injection H as <-;
    repeat match goal with
           | |- context [append_value_estimates _ ?v] =>
               destruct v as [[? ?] ?]
           | |- context [append_reward_estimates _ ?r] =>
               destruct r as [[? ?] ?]
           end; simpl; rewrite length_app; simpl; (split; [lia|reflexivity]).
Qed.

Lemma report_counts (self self1 : Evaluator)
      (input_list : list (option mat)) (n : Z) :
  1 <= n -> evaluator_batch_size self = n ->
  length (all_batches self) = 9%nat ->
  with_td_loss input_list ->
  Z.of_nat (length (td_loss_batches self)) < n ->
  report self input_list = Ok self1 ->
  evaluator_batch_size self1 = n /\
  length (all_batches self1) = 9%nat /\
  Z.of_nat (length (td_loss_batches self1)) < n /\
  Z.of_nat (length (td_loss self1)) * n
  + Z.of_nat (length (td_loss_batches self1))
  = Z.of_nat (length (td_loss self)) * n
    + Z.of_nat (length (td_loss_batches self)) + 1.
Proof.
  intros Hn Hsize Hnine [Hlen [x [rest ->]]] Hbelow Hrep.
  unfold report in Hrep. rewrite report_loop_assertion in Hrep by lia.
  destruct (omitted_after_supplied _ _); [discriminate|].
  cbn [bind] in Hrep.
  pose proof (append_inputs_length (Some x :: rest) (all_batches self)
                ltac:(lia)) as Hnine'.
  rewrite Hnine in Hnine'.
  unfold td_loss_batches in *.
  destruct (all_batches self) as [|td batches] eqn:Hall;
    [discriminate|].
  set (self0 := set_all_batches self _) in Hrep.
  assert (Htd0 : nth 0 (all_batches self0) [] = td ++ [x])
    by reflexivity.
  assert (Hsize0 : evaluator_batch_size self0 = n) by exact Hsize.
  cbn [nth] in Hbelow.
  rewrite Hsize0, Htd0, length_app in Hrep. cbn [length] in Hrep.
  destruct (n <=? _) eqn:Hfull.
  - apply Z.leb_le in Hfull.
    destruct (evaluate_batch self0) as [self2|] eqn:He;
      cbn [bind] in Hrep; [|discriminate].
    injection Hrep as <-.
    destruct (evaluate_batch_appends_td_loss _ _ He) as [Hh Hs].
    { unfold td_loss_batches. rewrite Htd0. now destruct td. }
    pose proof (evaluate_batch_batches _ _ He) as Hb.
    unfold clear_evaluation_containers. cbn. rewrite Hb.
    change (all_batches self0)
      with (append_inputs (Some x :: rest) (td :: batches)).
    split; [now rewrite Hs|]. split; [rewrite length_map; exact Hnine'|].
    cbn. rewrite Hh. change (td_loss self0) with (td_loss self).
    split; lia.
  - apply Z.leb_gt in Hfull. injection Hrep as <-.
    split; [exact Hsize0|]. split; [exact Hnine'|].
    rewrite Htd0, length_app. cbn [length nth].
    change (td_loss self0) with (td_loss self). split; lia.
Qed.

Lemma reports_count (n : Z) (calls : list (list (option mat))) :
  1 <= n -> Forall with_td_loss calls ->
  forall self self',
    evaluator_batch_size self = n ->
    length (all_batches self) = 9%nat ->
    Z.of_nat (length (td_loss_batches self)) < n ->
    reports self calls = Ok self' ->
    Z.of_nat (length (td_loss_batches self')) < n /\
    Z.of_nat (length (td_loss self')) * n
    + Z.of_nat (length (td_loss_batches self'))
    = Z.of_nat (length (td_loss self)) * n
      + Z.of_nat (length (td_loss_batches self))
      + Z.of_nat (length calls).
Proof.
  intros Hn. induction 1 as [|c calls Hc Hcalls IH];
    intros self self' Hsize Hnine Hbelow Hrep.
  - injection Hrep as <-. simpl. split; lia.
  - cbn [reports] in Hrep.
    destruct (report self c) as [self1|] eqn:H1; cbn [bind] in Hrep;
      [|discriminate].
    destruct (report_counts _ _ _ n Hn Hsize Hnine Hc Hbelow H1)
      as [Hsize1 [Hnine1 [Hbelow1 Hcount1]]].
    destruct (IH _ _ Hsize1 Hnine1 Hbelow1 Hrep) as [Hbelow' Hcount'].
    split; [exact Hbelow'|]. cbn [length]. lia.
Qed.

(** X21: an evaluator with a batch size of at least 1 evaluates once
    every [evaluator_batch_size] reports: after any number of reports that
    supply the TD loss, none of which raised, the TD-loss history holds
    the quotient of that number by the batch size and the TD-loss buffer
    holds the remainder. *)
Theorem reports_evaluate_every_batch_size
    (batch_size : Z) (gamma : num)
    (calls : list (list (option mat))) (self : Evaluator) :
  1 <= batch_size ->
  Forall with_td_loss calls ->
  reports (new_Evaluator batch_size gamma) calls = Ok self ->
  Z.of_nat (length (td_loss self))
  = Z.of_nat (length calls) / batch_size /\
  Z.of_nat (length (td_loss_batches self))
  = Z.of_nat (length calls) mod batch_size.
Proof.
  intros Hn Hcalls Hrep.
  destruct (reports_count batch_size calls Hn Hcalls
              (new_Evaluator batch_size gamma) self
              eq_refl eq_refl ltac:(simpl; lia) Hrep) as [Hbelow Hcount].
  simpl in Hcount.
  set (h := Z.of_nat (length (td_loss self))) in *.
  set (b := Z.of_nat (length (td_loss_batches self))) in *.
  assert (Hb : 0 <= b < batch_size) by (subst b; lia).
  split.
  - apply (Z.div_unique _ _ h b); [left; exact Hb | lia].
  - apply (Z.mod_unique _ _ h b); [left; exact Hb | lia].
Qed.

(** The theorem for three reports of a TD loss with a batch size of 2. *)
Lemma reports_evaluate_every_batch_size_witness :
  let call :=
    [Some [[one]]; None; None; None; None; None; None; None; None] in
  exists self,
    reports (new_Evaluator 2 one) [call; call; call] = Ok self /\
    Z.of_nat (length (td_loss self)) = 1 /\
    Z.of_nat (length (td_loss_batches self)) = 1.
Proof.
  intros call. eexists. split; [reflexivity|].
  apply (reports_evaluate_every_batch_size 2 one [call; call; call]).
  - lia.
  - repeat constructor; exists [[one]]; eexists; reflexivity.
  - reflexivity.
Defined.

Lemma report_without_td_loss (self self1 : Evaluator)
      (input_list : list (option mat)) :
  1 <= evaluator_batch_size self ->
  length (all_batches self) = 9%nat ->
  td_loss_batches self = [] ->
  without_td_loss input_list ->
  report self input_list = Ok self1 ->
  evaluator_batch_size self1 = evaluator_batch_size self /\
  length (all_batches self1) = 9%nat /\
  td_loss_batches self1 = [] /\
  histories self1 = histories self.
Proof.
  intros Hn Hnine Htd [Hlen [rest ->]] Hrep.
  unfold report in Hrep. rewrite report_loop_assertion in Hrep by lia.
  destruct (omitted_after_supplied _ _); [discriminate|].
  cbn [bind] in Hrep.
  pose proof (append_inputs_length (None :: rest) (all_batches self)
                ltac:(lia)) as Hnine'.
  rewrite Hnine in Hnine'.
  unfold td_loss_batches in *.
  destruct (all_batches self) as [|td batches] eqn:Hall;
    [discriminate|].
  cbn [nth] in Htd. subst td.
  set (self0 := set_all_batches self _) in Hrep.
  assert (Htd0 : nth 0 (all_batches self0) [] = []) by reflexivity.
  assert (Hsize0 : evaluator_batch_size self0 = evaluator_batch_size self)
    by reflexivity.
  rewrite Hsize0, Htd0 in Hrep. cbn [length] in Hrep.
  replace (evaluator_batch_size self <=? Z.of_nat 0) with false in Hrep
    by (symmetry; apply Z.leb_gt; lia).
  injection Hrep as <-.
  split; [exact Hsize0|]. split; [exact Hnine'|].
  split; [exact Htd0 | reflexivity].
Qed.

(** X22: only the TD-loss buffer triggers an evaluation: reports that omit
    the TD loss are buffered without end, and whatever else they supply,
    no loss and no estimate is ever recorded (batch size of at least 1). *)
Theorem reports_without_td_loss_never_evaluate
    (batch_size : Z) (gamma : num)
    (calls : list (list (option mat))) (self : Evaluator) :
  1 <= batch_size ->
  Forall without_td_loss calls ->
  reports (new_Evaluator batch_size gamma) calls = Ok self ->
  histories self = repeat [] 8 /\ td_loss_batches self = [].
Proof.
  intros Hn Hcalls.
  generalize (eq_refl : histories (new_Evaluator batch_size gamma)
                        = repeat [] 8).
  generalize (eq_refl : td_loss_batches
                          (new_Evaluator batch_size gamma) = []).
  generalize (eq_refl : length (all_batches
                          (new_Evaluator batch_size gamma))
                        = 9%nat).
  generalize (Hn : 1 <= evaluator_batch_size
                         (new_Evaluator batch_size gamma)).
  generalize (new_Evaluator batch_size gamma) as start.
  induction Hcalls as [|c calls Hc Hcalls IH];
    intros start Hsize Hnine Htd Hhist Hrep.
  - injection Hrep as <-. split; assumption.
  - cbn [reports] in Hrep.
    destruct (report start c) as [self1|] eqn:H1; cbn [bind] in Hrep;
      [|discriminate].
    destruct (report_without_td_loss _ _ _ Hsize Hnine Htd Hc H1)
      as [Hsize1 [Hnine1 [Htd1 Hhist1]]].
    apply (IH self1); try assumption.
    + now rewrite Hsize1.
    + now rewrite Hhist1.
Qed.

(** The theorem for two reports of logged actions only. *)
Lemma reports_without_td_loss_never_evaluate_witness :
  let call :=
    [None; Some [[one]]; None; None; None; None; None; None; None] in
  exists self,
    reports (new_Evaluator 1 one) [call; call] = Ok self /\
    histories self = repeat [] 8 /\ td_loss_batches self = [].
Proof.
  intros call. eexists. split; [reflexivity|].
  apply (reports_without_td_loss_never_evaluate 1 one [call; call]).
  - lia.
  - repeat constructor; eexists; reflexivity.
  - reflexivity.
Defined.

Lemma report_td_loss_only (self : Evaluator) (x : mat) (td : list mat) :
  1 <= evaluator_batch_size self ->
  all_batches self = td :: repeat [] 8 ->
  Z.of_nat (length td) < evaluator_batch_size self ->
  exists self1 td1,
    report self (Some x :: repeat None 8) = Ok self1 /\
    evaluator_batch_size self1 = evaluator_batch_size self /\
    all_batches self1 = td1 :: repeat [] 8 /\
    Z.of_nat (length td1) < evaluator_batch_size self /\
    tl (tl (histories self1)) = tl (tl (histories self)) /\
    mc_loss self1 = mc_loss self.
Proof.
  intros Hn Hall Hbelow. unfold report.
  rewrite report_loop_assertion by (rewrite Hall; simpl; lia).
  rewrite Hall.
  change (omitted_after_supplied (Some x :: repeat None 8)
            (td :: repeat [] 8)) with false.
  change (append_inputs (Some x :: repeat None 8) (td :: repeat [] 8))
    with ((td ++ [x]) :: repeat [] 8).
  cbn [bind]. set (self0 := set_all_batches self _).
  change (evaluator_batch_size self0) with (evaluator_batch_size self).
  change (td_loss_batches self0) with (td ++ [x]).
  destruct (evaluator_batch_size self <=? _) eqn:Hfull.
  - assert (He : evaluate_batch self0
                 = Ok (append_td_loss self0
                         (np_mean2 (np_vstack (td ++ [x]))))).
    { unfold evaluate_batch.
      change (all_batches self0) with ((td ++ [x]) :: repeat [] 8).
      cbn [map repeat]. destruct td; reflexivity. }
    rewrite He. cbn [bind].
    eexists. exists []. split; [reflexivity|].
    repeat split. simpl. lia.
  - apply Z.leb_gt in Hfull.
    exists self0, (td ++ [x]). repeat split. exact Hfull.
Qed.

(** X23: an evaluator with a batch size of at least 1 that is only ever
    given TD losses never raises, and records nothing but TD losses. *)
Theorem reports_of_td_loss_only_succeed
    (batch_size : Z) (gamma : num) (calls : list (list (option mat))) :
  1 <= batch_size ->
  Forall td_loss_only calls ->
  exists self,
    reports (new_Evaluator batch_size gamma) calls = Ok self /\
    mc_loss self = [] /\
    value_inverse_propensity_score self = [] /\
    value_direct_method self = [] /\
    value_doubly_robust self = [] /\
    reward_inverse_propensity_score self = [] /\
    reward_direct_method self = [] /\
    reward_doubly_robust self = [].
Proof.
  intros Hn Hcalls.
  assert (Hgen : forall start td,
    evaluator_batch_size start = batch_size ->
    all_batches start = td :: repeat [] 8 ->
    Z.of_nat (length td) < batch_size ->
    exists self,
      reports start calls = Ok self /\
      mc_loss self = mc_loss start /\
      tl (tl (histories self)) = tl (tl (histories start))).
  { induction Hcalls as [|c calls [x ->] Hcalls IH];
      intros start td Hsize Hall Hbelow.
    - exists start. repeat split.
    - destruct (report_td_loss_only start x td) as
        [self1 [td1 [H1 [Hsize1 [Hall1 [Hbelow1 [Hhist1 Hmc1]]]]]]];
        try (rewrite Hsize; assumption); [exact Hall|].
      rewrite Hsize in Hsize1, Hbelow1.
      destruct (IH self1 td1 Hsize1 Hall1 Hbelow1)
        as [self [Hrep [Hmc Hhist]]].
      exists self. cbn [reports]. rewrite H1. cbn [bind].
      split; [exact Hrep|]. split; congruence. }
  destruct (Hgen (new_Evaluator batch_size gamma) [] eq_refl eq_refl)
    as [self [Hrep [Hmc Hhist]]]; [simpl; lia|].
  exists self. split; [exact Hrep|]. split; [exact Hmc|].
  unfold histories in Hhist. cbn [tl new_Evaluator] in Hhist.
  simpl in Hhist. injection Hhist as H1 H2 H3 H4 H5 H6.
  repeat split; assumption.
Qed.

(** The theorem for three reports with a batch size of 2. *)
Lemma reports_of_td_loss_only_succeed_witness :
  exists self,
    reports (new_Evaluator 2 one)
      [Some [[one]] :: repeat None 8; Some [[zero]] :: repeat None 8;
       Some [[one]] :: repeat None 8]
    = Ok self /\
    mc_loss self = [] /\
    value_inverse_propensity_score self = [] /\
    value_direct_method self = [] /\
    value_doubly_robust self = [] /\
    reward_inverse_propensity_score self = [] /\
    reward_direct_method self = [] /\
    reward_doubly_robust self = [].
Proof.
  apply (reports_of_td_loss_only_succeed 2 one).
  - lia.
  - repeat constructor; eexists; reflexivity.
Defined.
